(** * tools/model_factory.py: the chat-model factory and the DeepSeek
      tool-call patch

    A shallow embedding of [tools/model_factory.py].

    Conventions of the model.
    - A Python [str] is a Rocq [string]: the text in UTF-8, one [ascii]
      per byte.
    - The values that travel inside [additional_kwargs] are dynamically
      typed: they are the inductive [pyval], and the operations the source
      applies to them ([in], subscription, truth value, iteration) behave
      as Python's do, exceptions included.
    - The objects of langchain that pydantic types (the generation
      entries, the messages) are records.  [result.generations] is a
      list whose items the source iterates: an item is a list of
      generation entries (the layout of [LLMResult]) or one
      [ChatGeneration] object (the layout of [ChatResult], which is what
      [ChatOpenAI._generate] returns).
    - What the base client returns is built from one HTTP response, so
      it is a tree: no mapping is reachable twice.  On such a value an
      assignment to [tool_call["function"]["arguments"]] is the functional
      update written here.
    - The interpreter enters through two numbers: how deep [json.loads]
      may nest containers before [RecursionError], and the digit limit
      of [int]. *)

From Stdlib Require Import String Ascii List ZArith NArith Lia Bool Arith.
Import ListNotations.

Local Open Scope list_scope.
Local Open Scope string_scope.

(** ** Python strings *)

Module Str.

(** [c] is one of [A]..[Z]. *)
Definition is_capital (c : ascii) : bool :=
  let n := nat_of_ascii c in ((65 <=? n) && (n <=? 90))%nat.

(** [c.lower()] for one ASCII character: [A]..[Z] move to [a]..[z]. *)
Definition lower_char (c : ascii) : ascii :=
  if is_capital c then ascii_of_nat (nat_of_ascii c + 32) else c.

(** No character of [s] is a capital. *)
Fixpoint no_capital (s : string) : bool :=
  match s with
  | EmptyString => true
  | String c rest => negb (is_capital c) && no_capital rest
  end.

(** The byte of a number. *)
Definition byte (n : nat) : ascii := ascii_of_nat n.

(** The three bytes of U+212A KELVIN SIGN. *)
Definition is_kelvin (c c1 c2 : ascii) : bool :=
  Ascii.eqb c (byte 226) && Ascii.eqb c1 (byte 132) && Ascii.eqb c2 (byte 170).

(** The two bytes of U+0130, the capital I with a dot above. *)
Definition is_dotted_I (c c1 : ascii) : bool :=
  Ascii.eqb c (byte 196) && Ascii.eqb c1 (byte 176).

(** [s.lower()].  The capitals [A]..[Z] become small letters.  Of the
    characters past U+007F, [lower()] sends two into ASCII text: U+212A
    KELVIN SIGN becomes [k], and U+0130 becomes [i] followed by U+0307
    (the bytes 204, 135).  Every other character past U+007F goes to a
    character past U+007F again; the model keeps it as it is, which a
    search for ASCII text cannot tell from what [lower()] returns. *)
Fixpoint lower (s : string) : string :=
  match s with
  | EmptyString => EmptyString
  | String c rest =>
      match rest with
      | String c1 rest1 =>
          if is_dotted_I c c1
          then String "i" (String (byte 204) (String (byte 135) (lower rest1)))
          else
            match rest1 with
            | String c2 rest2 =>
                if is_kelvin c c1 c2 then String "k" (lower rest2)
                else String (lower_char c) (lower rest)
            | EmptyString => String (lower_char c) (lower rest)
            end
      | EmptyString => String (lower_char c) (lower rest)
      end
  end.

(** [s] opens with the bytes of one of the two characters that
    [lower] sends into ASCII text. *)
Definition special_head (s : string) : bool :=
  match s with
  | String c (String c1 rest1) =>
      is_dotted_I c c1 ||
      match rest1 with
      | String c2 _ => is_kelvin c c1 c2
      | EmptyString => false
      end
  | _ => false
  end.

(** [c] is a byte that follows the first one in those two
    characters. *)
Definition is_tail_byte (c : ascii) : bool :=
  Ascii.eqb c (byte 132) || Ascii.eqb c (byte 170) || Ascii.eqb c (byte 176).

(** [s] does not open with such a byte. *)
Definition starts_clean (s : string) : bool :=
  match s with
  | EmptyString => true
  | String c _ => negb (is_tail_byte c)
  end.

(** [hay.startswith(needle)] *)
Fixpoint startswith (needle hay : string) : bool :=
  match needle, hay with
  | EmptyString, _ => true
  | String _ _, EmptyString => false
  | String a n', String b h' => Ascii.eqb a b && startswith n' h'
  end.

(** [needle in hay] on two strings: [needle] occurs at some offset. *)
Fixpoint contains (needle hay : string) : bool :=
  startswith needle hay ||
  match hay with
  | EmptyString => false
  | String _ rest => contains needle rest
  end.

(** [bool(s)]: a string is true when it is not empty. *)
Definition truthy (s : string) : bool :=
  match s with EmptyString => false | String _ _ => true end.

End Str.

(** ** Python values *)

Set Warnings "-register-all".

(** The values found inside [additional_kwargs] and produced by
    [json.loads].  A [float] keeps the text of its literal: no claim
    computes with one.  Mappings have string keys and keep insertion
    order, as [dict] does. *)
Inductive pyval : Type :=
| VNone
| VBool (b : bool)
| VInt (n : Z)
| VFloat (literal : string)
| VStr (s : string)
| VList (items : list pyval)
| VDict (items : list (string * pyval)).

(** [isinstance(v, str)] *)
Definition is_str (v : pyval) : bool :=
  match v with VStr _ => true | _ => false end.

(** [isinstance(v, dict)] *)
Definition is_dict (v : pyval) : bool :=
  match v with VDict _ => true | _ => false end.

(** Operations of [dict] on its association list. *)
Module Dict.

Definition t : Type := list (string * pyval).

(** [d.get(k)], with [None] standing for "no such key". *)
Fixpoint get (d : t) (k : string) : option pyval :=
  match d with
  | [] => None
  | (k', v) :: rest => if String.eqb k k' then Some v else get rest k
  end.

(** [k in d] *)
Definition mem (d : t) (k : string) : bool :=
  match get d k with Some _ => true | None => false end.

(** [d[k] = v]: an existing key keeps its place, a new one goes last. *)
Fixpoint set (d : t) (k : string) (v : pyval) : t :=
  match d with
  | [] => [(k, v)]
  | (k', v') :: rest =>
      if String.eqb k k' then (k', v) :: rest else (k', v') :: set rest k v
  end.

(** [dict(pairs)] *)
Definition of_pairs (pairs : list (string * pyval)) : t :=
  fold_left (fun d kv => set d (fst kv) (snd kv)) pairs [].

End Dict.

(** ** Exceptions *)

(** The exceptions that can leave the code of this file, those of
    [json.loads], and whatever the base client raises. *)
Inductive exn : Type :=
| TypeError
| KeyError
| JSONDecodeError
| RecursionError
| ValueError
| Upstream (what : string).

(** A computation that returns or raises. *)
Inductive result (A : Type) : Type :=
| Ok (a : A)
| Raise (e : exn).
Arguments Ok {A} a.
Arguments Raise {A} e.

Definition bind {A B : Type} (m : result A) (k : A -> result B) : result B :=
  match m with
  | Ok a => k a
  | Raise e => Raise e
  end.

Notation "x <- m ;; k" := (bind m (fun x => k))
  (at level 61, m at next level, right associativity).

(** Run [body] on the items of a list from left to right, keeping the
    items it returns; the first exception ends the loop. *)
Fixpoint for_each {A : Type} (body : A -> result A) (items : list A)
  : result (list A) :=
  match items with
  | [] => Ok []
  | item :: rest =>
      item' <- body item ;;
      rest' <- for_each body rest ;;
      Ok (item' :: rest')
  end.

(** ** The interpreter *)

(** What the code takes from the interpreter it runs in.  [json_depth]
    is how many containers [json.loads] can open inside one another at
    the point of the call before the interpreter raises
    [RecursionError].  [int_max_str_digits] is
    [sys.get_int_max_str_digits()]: 4300 unless changed, 0 for no limit
    (and for an interpreter without the limit). *)
Class Interpreter : Type := {
  json_depth : nat;
  int_max_str_digits : nat
}.

(** CPython as it starts: the recursion limit of 1000 and the digit
    limit of 4300. *)
Definition cpython : Interpreter :=
  {| json_depth := 1000; int_max_str_digits := 4300 |}.

(** ** json.loads

    The decoder of Python's [json] package with its default settings, as
    the C scanner runs it:
    [scan_once] dispatching on the next character, [JSONObject],
    [JSONArray], [scanstring] in strict mode and the number pattern
    (an optional minus sign, then 0 or a digit run that does not start
    with 0; an optional fraction of a dot and digits; an optional
    exponent of e or E, an optional sign and digits). *)
Module Json.

(** Outcome of a scanner: a value and the text after it, a
    [JSONDecodeError], the [RecursionError] of a container opened too
    deep, the [ValueError] of an integer with too many digits, or the
    fuel of a loop used up. *)
Inductive scan (A : Type) : Type :=
| Scanned (a : A) (rest : string)
| DecodeError
| RecursionLimit
| DigitLimit
| Starved.
Arguments Scanned {A} a rest.
Arguments DecodeError {A}.
Arguments RecursionLimit {A}.
Arguments DigitLimit {A}.
Arguments Starved {A}.

(** The double quote. *)
Definition dquote : ascii := ascii_of_nat 34.

(** The characters of [WHITESPACE]: space, tab, line feed, carriage
    return. *)
Definition is_ws (c : ascii) : bool :=
  let n := nat_of_ascii c in
  ((n =? 32) || (n =? 9) || (n =? 10) || (n =? 13))%nat.

Fixpoint skip_ws (s : string) : string :=
  match s with
  | String c rest => if is_ws c then skip_ws rest else s
  | EmptyString => s
  end.

Definition is_digit (c : ascii) : bool :=
  let n := nat_of_ascii c in ((48 <=? n) && (n <=? 57))%nat.

Definition digit_value (c : ascii) : Z := Z.of_nat (nat_of_ascii c) - 48.

(** Value of one hexadecimal digit. *)
Definition hex_value (c : ascii) : option N :=
  let n := N_of_ascii c in
  if ((48 <=? n) && (n <=? 57))%N then Some (n - 48)%N
  else if ((65 <=? n) && (n <=? 70))%N then Some (n - 55)%N
  else if ((97 <=? n) && (n <=? 102))%N then Some (n - 87)%N
  else None.

(** [_decode_uXXXX] on its four characters. *)
Definition decode_uXXXX (a b c d : ascii) : option N :=
  match hex_value a, hex_value b, hex_value c, hex_value d with
  | Some x, Some y, Some z, Some w =>
      Some (x * 4096 + y * 256 + z * 16 + w)%N
  | _, _, _, _ => None
  end.

Definition byte (n : N) : ascii := ascii_of_N n.

(** [chr(uni)] in UTF-8; a lone surrogate takes the three-byte form. *)
Definition chr (uni : N) : string :=
  if (uni <? 128)%N then String (byte uni) ""
  else if (uni <? 2048)%N then
    String (byte (192 + N.shiftr uni 6))
    (String (byte (128 + N.land uni 63)) "")
  else if (uni <? 65536)%N then
    String (byte (224 + N.shiftr uni 12))
    (String (byte (128 + N.land (N.shiftr uni 6) 63))
    (String (byte (128 + N.land uni 63)) ""))
  else
    String (byte (240 + N.shiftr uni 18))
    (String (byte (128 + N.land (N.shiftr uni 12) 63))
    (String (byte (128 + N.land (N.shiftr uni 6) 63))
    (String (byte (128 + N.land uni 63)) ""))).

(** The table [BACKSLASH]. *)
Definition backslash (esc : ascii) : option ascii :=
  if Ascii.eqb esc dquote then Some dquote
  else if Ascii.eqb esc "\" then Some "\"%char
  else if Ascii.eqb esc "/" then Some "/"%char
  else if Ascii.eqb esc "b" then Some (ascii_of_nat 8)
  else if Ascii.eqb esc "f" then Some (ascii_of_nat 12)
  else if Ascii.eqb esc "n" then Some (ascii_of_nat 10)
  else if Ascii.eqb esc "r" then Some (ascii_of_nat 13)
  else if Ascii.eqb esc "t" then Some (ascii_of_nat 9)
  else None.

Definition is_high_surrogate (uni : N) : bool :=
  ((55296 <=? uni) && (uni <=? 56319))%N.
Definition is_low_surrogate (uni : N) : bool :=
  ((56320 <=? uni) && (uni <=? 57343))%N.
Definition join_surrogates (uni uni2 : N) : N :=
  (65536 + N.lor (N.shiftl (uni - 55296) 10) (uni2 - 56320))%N.

Definition prepend (chunk : string) (r : scan string) : scan string :=
  match r with
  | Scanned s rest => Scanned (chunk ++ s) rest
  | DecodeError => DecodeError
  | RecursionLimit => RecursionLimit
  | DigitLimit => DigitLimit
  | Starved => Starved
  end.

(** [scanstring] in strict mode, entered after the opening quote: the
    text up to the closing quote with its escapes decoded.  A control
    character, an unknown escape or the end of the text is an error. *)
Fixpoint scanstring (s : string) : scan string :=
  match s with
  | EmptyString => DecodeError
  | String c rest =>
      if Ascii.eqb c dquote then Scanned "" rest
      else if Ascii.eqb c "\" then
        match rest with
        | EmptyString => DecodeError
        | String esc rest1 =>
            if Ascii.eqb esc "u" then
              match rest1 with
              | String a (String b (String c1 (String d rest2))) =>
                  match decode_uXXXX a b c1 d with
                  | None => DecodeError
                  | Some uni =>
                      match rest2 with
                      | String bs (String u (String a2 (String b2
                          (String c2 (String d2 rest3))))) =>
                          if is_high_surrogate uni && Ascii.eqb bs "\"
                             && Ascii.eqb u "u"
                          then
                            match decode_uXXXX a2 b2 c2 d2 with
                            | None => DecodeError
                            | Some uni2 =>
                                if is_low_surrogate uni2
                                then prepend (chr (join_surrogates uni uni2))
                                             (scanstring rest3)
                                else prepend (chr uni) (scanstring rest2)
                            end
                          else prepend (chr uni) (scanstring rest2)
                      | _ => prepend (chr uni) (scanstring rest2)
                      end
                  end
              | _ => DecodeError
              end
            else
              match backslash esc with
              | Some char => prepend (String char "") (scanstring rest1)
              | None => DecodeError
              end
        end
      else if (nat_of_ascii c <? 32)%nat then DecodeError
      else prepend (String c "") (scanstring rest)
  end.

(** The longest run of digits at the head of [s], and what follows. *)
Fixpoint digits (s : string) : string * string :=
  match s with
  | String c rest =>
      if is_digit c
      then let (ds, after) := digits rest in (String c ds, after)
      else ("", s)
  | EmptyString => ("", s)
  end.

(** [int(ds)] for a run of digits. *)
Fixpoint int_of_digits (acc : Z) (ds : string) : Z :=
  match ds with
  | EmptyString => acc
  | String c rest => int_of_digits (10 * acc + digit_value c) rest
  end.

Definition is_empty (s : string) : bool :=
  match s with EmptyString => true | String _ _ => false end.

(** The integer part of the number pattern: [0], or a digit run that
    does not start with [0]. *)
Definition integer_part (s : string) : option (string * string) :=
  match s with
  | String c rest =>
      if Ascii.eqb c "0" then Some ("0", rest)
      else if is_digit c
      then let (ds, after) := digits rest in Some (String c ds, after)
      else None
  | EmptyString => None
  end.

(** The optional fraction: a dot and at least one digit. *)
Definition fraction_part (s : string) : string * string :=
  match s with
  | String c rest =>
      if Ascii.eqb c "." then
        let (ds, after) := digits rest in
        if is_empty ds then ("", s) else (String c ds, after)
      else ("", s)
  | EmptyString => ("", s)
  end.

(** The optional exponent: [e] or [E], an optional sign, at least one
    digit. *)
Definition exponent_part (s : string) : string * string :=
  match s with
  | String c rest =>
      if Ascii.eqb c "e" || Ascii.eqb c "E" then
        let (sign, rest1) :=
          match rest with
          | String sg r =>
              if Ascii.eqb sg "+" || Ascii.eqb sg "-"
              then (String sg "", r) else ("", rest)
          | EmptyString => ("", rest)
          end in
        let (ds, after) := digits rest1 in
        if is_empty ds then ("", s) else (String c (sign ++ ds), after)
      else ("", s)
  | EmptyString => ("", s)
  end.

(** The groups of a match of the number pattern: whether there is a
    minus sign, the digits of the integer part, the fraction with its
    dot, the exponent with its letter and sign. *)
Record number_groups : Type := mkGroups {
  negative : bool;
  int_digits : string;
  frac : string;
  exp : string
}.

(** [match_number]: the groups and the text after the match. *)
Definition match_number (s : string) : option (number_groups * string) :=
  let (negative, s1) :=
    match s with
    | String c rest => if Ascii.eqb c "-" then (true, rest) else (false, s)
    | EmptyString => (false, s)
    end in
  match integer_part s1 with
  | None => None
  | Some (int_digits, rest) =>
      let (frac, rest1) := fraction_part rest in
      let (exp, rest2) := exponent_part rest1 in
      Some (mkGroups negative int_digits frac exp, rest2)
  end.

(** [s[idx:idx+len(word)] == word]: the text after [word], if [s]
    starts with it. *)
Fixpoint after_word (word s : string) : option string :=
  match word, s with
  | EmptyString, _ => Some s
  | String a w', String b s' =>
      if Ascii.eqb a b then after_word w' s' else None
  | String _ _, EmptyString => None
  end.

Section WithInterpreter.

Context {py : Interpreter}.

(** The digit limit of [int]: a run of more than 640 digits, and of
    more digits than a limit that is not 0, is refused. *)
Definition too_many_digits (ds : string) : bool :=
  let n := String.length ds in
  ((640 <? n) && (0 <? int_max_str_digits) && (int_max_str_digits <? n))%nat.

(** The value of a matched number: an [int] when there is neither
    fraction nor exponent, a [float] otherwise. *)
Definition number_value (g : number_groups) (rest : string) : scan pyval :=
  if is_empty (frac g) && is_empty (exp g) then
    if too_many_digits (int_digits g) then DigitLimit
    else
      let n := int_of_digits 0 (int_digits g) in
      Scanned (VInt (if negative g then - n else n)) rest
  else
    Scanned (VFloat ((if negative g then "-" else "") ++ int_digits g
                     ++ frac g ++ exp g)) rest.

(** The constants and numbers of [scan_once], in its order: [null],
    [true], [false], a number, [NaN], [Infinity], [-Infinity]. *)
Definition scan_atom (s : string) : scan pyval :=
  match after_word "null" s with
  | Some rest => Scanned VNone rest
  | None =>
  match after_word "true" s with
  | Some rest => Scanned (VBool true) rest
  | None =>
  match after_word "false" s with
  | Some rest => Scanned (VBool false) rest
  | None =>
  match match_number s with
  | Some (groups, rest) => number_value groups rest
  | None =>
  match after_word "NaN" s with
  | Some rest => Scanned (VFloat "NaN") rest
  | None =>
  match after_word "Infinity" s with
  | Some rest => Scanned (VFloat "Infinity") rest
  | None =>
  match after_word "-Infinity" s with
  | Some rest => Scanned (VFloat "-Infinity") rest
  | None => DecodeError
  end end end end end end end.

(** The loop of [JSONArray], entered at the first value. *)
Fixpoint array_loop (scan_once : string -> scan pyval) (fuel : nat)
    (s : string) (values : list pyval) : scan pyval :=
  match fuel with
  | O => Starved
  | S fuel' =>
      match scan_once s with
      | Scanned value rest =>
          let values := (values ++ [value])%list in
          match skip_ws rest with
          | String nextchar rest1 =>
              if Ascii.eqb nextchar "]" then Scanned (VList values) rest1
              else if Ascii.eqb nextchar ","
              then array_loop scan_once fuel' (skip_ws rest1) values
              else DecodeError
          | EmptyString => DecodeError
          end
      | DecodeError => DecodeError
      | RecursionLimit => RecursionLimit
      | DigitLimit => DigitLimit
      | Starved => Starved
      end
  end.

(** [JSONArray], entered after the opening bracket. *)
Definition JSONArray (scan_once : string -> scan pyval) (fuel : nat)
    (s : string) : scan pyval :=
  match skip_ws s with
  | String nextchar rest =>
      if Ascii.eqb nextchar "]" then Scanned (VList []) rest
      else array_loop scan_once fuel (skip_ws s) []
  | EmptyString => array_loop scan_once fuel (skip_ws s) []
  end.

(** The loop of [JSONObject], entered after the quote that opens a
    key. *)
Fixpoint object_loop (scan_once : string -> scan pyval) (fuel : nat)
    (s : string) (pairs : list (string * pyval)) : scan pyval :=
  match fuel with
  | O => Starved
  | S fuel' =>
      match scanstring s with
      | Scanned key rest =>
          match skip_ws rest with
          | String colon rest1 =>
              if Ascii.eqb colon ":" then
                match scan_once (skip_ws rest1) with
                | Scanned value rest2 =>
                    let pairs := (pairs ++ [(key, value)])%list in
                    match skip_ws rest2 with
                    | String nextchar rest3 =>
                        if Ascii.eqb nextchar "}"
                        then Scanned (VDict (Dict.of_pairs pairs)) rest3
                        else if Ascii.eqb nextchar "," then
                          match skip_ws rest3 with
                          | String q rest4 =>
                              if Ascii.eqb q dquote
                              then object_loop scan_once fuel' rest4 pairs
                              else DecodeError
                          | EmptyString => DecodeError
                          end
                        else DecodeError
                    | EmptyString => DecodeError
                    end
                | DecodeError => DecodeError
                | RecursionLimit => RecursionLimit
                | DigitLimit => DigitLimit
                | Starved => Starved
                end
              else DecodeError
          | EmptyString => DecodeError
          end
      | DecodeError => DecodeError
      | RecursionLimit => RecursionLimit
      | DigitLimit => DigitLimit
      | Starved => Starved
      end
  end.

(** [JSONObject], entered after the opening brace. *)
Definition JSONObject (scan_once : string -> scan pyval) (fuel : nat)
    (s : string) : scan pyval :=
  match skip_ws s with
  | String nextchar rest =>
      if Ascii.eqb nextchar "}" then Scanned (VDict []) rest
      else if Ascii.eqb nextchar dquote
      then object_loop scan_once fuel rest []
      else DecodeError
  | EmptyString => DecodeError
  end.

(** [scan_once]: one JSON value at the head of [s].  [depth] is how
    many containers may still be opened inside one another; a loop gets
    more fuel than the text has characters. *)
Fixpoint scan_once (depth : nat) (s : string) : scan pyval :=
  match s with
  | EmptyString => DecodeError
  | String nextchar rest =>
      if Ascii.eqb nextchar dquote then
        match scanstring rest with
        | Scanned str after => Scanned (VStr str) after
        | DecodeError => DecodeError
        | RecursionLimit => RecursionLimit
        | DigitLimit => DigitLimit
        | Starved => Starved
        end
      else if Ascii.eqb nextchar "{" then
        match depth with
        | O => RecursionLimit
        | S depth' =>
            JSONObject (scan_once depth') (S (String.length rest)) rest
        end
      else if Ascii.eqb nextchar "[" then
        match depth with
        | O => RecursionLimit
        | S depth' =>
            JSONArray (scan_once depth') (S (String.length rest)) rest
        end
      else scan_atom s
  end.

(** [json.loads(s)] for a [str]: the decoded value, or the exception
    raised.  Leading and trailing white space is allowed, anything else
    after the value is an error. *)
Definition json_loads (s : string) : result pyval :=
  match scan_once json_depth (skip_ws s) with
  | Scanned obj rest =>
      if is_empty (skip_ws rest) then Ok obj else Raise JSONDecodeError
  | DecodeError => Raise JSONDecodeError
  | RecursionLimit => Raise RecursionError
  | DigitLimit => Raise ValueError
  | Starved => Raise JSONDecodeError
  end.

End WithInterpreter.

(** A scanner makes progress on [s]: it answers, and what it leaves is
    shorter than [s]. *)
Definition progresses {A : Type} (r : scan A) (s : string) : Prop :=
  r <> Starved /\
  forall a rest, r = Scanned a rest -> String.length rest < String.length s.

(** [scan] makes progress on every text. *)
Definition scanner_ok (scan : string -> scan pyval) : Prop :=
  forall s, progresses (scan s) s.

(** [count] copies of [c]. *)
Fixpoint repeat_char (c : ascii) (count : nat) : string :=
  match count with
  | O => EmptyString
  | S count' => String c (repeat_char c count')
  end.

(** Text written with apostrophes where JSON has double quotes. *)
Fixpoint q (s : string) : string :=
  match s with
  | EmptyString => EmptyString
  | String c rest =>
      String (if Ascii.eqb c "'" then dquote else c) (q rest)
  end.

End Json.

(** ** The factory *)

Module Factory.

(** The two classes [create_chat_model] can instantiate. *)
Inductive client_class : Type :=
| ChatOpenAI
| DeepSeekChatOpenAI.

(** A constructed client: its class and the keyword arguments its
    constructor received. *)
Record Client : Type := mkClient {
  cls : client_class;
  model : string;
  base_url : option string;
  api_key : option string;
  max_retries : Z;
  timeout : Z
}.

(** What [base_url and "deepseek.com" in base_url.lower()] evaluates to:
    Python's [and] gives back its left operand when that is false, so the
    expression is [None], the empty string or a boolean. *)
Inductive and_value : Type :=
| AndNone
| AndStr (s : string)
| AndBool (b : bool).

Definition and_truthy (v : and_value) : bool :=
  match v with
  | AndNone => false
  | AndStr s => Str.truthy s
  | AndBool b => b
  end.

Definition is_official_deepseek (base_url : option string) : and_value :=
  match base_url with
  | None => AndNone
  | Some u =>
      if Str.truthy u
      then AndBool (Str.contains "deepseek.com" (Str.lower u))
      else AndStr u
  end.

Definition diagnostic : string :=
  "🔧 Using DeepSeekChatOpenAI wrapper for official DeepSeek API".

(** [create_chat_model]: the lines printed and the client returned. *)
Definition create_chat_model
    (model : string) (base_url : option string) (api_key : option string)
    (max_retries : Z) (timeout : Z) (verbose : bool)
  : list string * Client :=
  if and_truthy (is_official_deepseek base_url) then
    ((if verbose then [diagnostic] else [])%list,
     mkClient DeepSeekChatOpenAI model base_url api_key max_retries timeout)
  else
    ([]%list,
     mkClient ChatOpenAI model base_url api_key max_retries timeout).

(** The defaults of the signature. *)
Definition default_max_retries : Z := 3.
Definition default_timeout : Z := 30.

(** [is_deepseek_official_api] *)
Definition is_deepseek_official_api (base_url : option string) : bool :=
  match base_url with
  | None => false
  | Some u => Str.contains "deepseek.com" (Str.lower u)
  end.

(** The capital of a small ASCII letter; any other character is its
    own. *)
Definition upper_of (c : ascii) : ascii :=
  let n := nat_of_ascii c in
  if ((97 <=? n) && (n <=? 122))%nat then ascii_of_nat (n - 32) else c.

(** [s] spells [word] up to the case of its letters: each character of
    [s] is the character of [word] at its place, or its capital. *)
Fixpoint spells (word s : string) : bool :=
  match word, s with
  | EmptyString, EmptyString => true
  | String w word', String c s' =>
      (Ascii.eqb c w || Ascii.eqb c (upper_of w)) && spells word' s'
  | _, _ => false
  end.

(** [u] holds the marker in some letter case: a slice of [u] spells
    ["deepseek.com"] up to the case of its letters. *)
Definition has_marker_any_case (u : string) : Prop :=
  exists pre mid post,
    u = pre ++ mid ++ post /\ spells "deepseek.com" mid = true.

(** [word] is spelled at the head of [s] up to the case of its
    letters. *)
Fixpoint spells_at_head (word s : string) : bool :=
  match word, s with
  | EmptyString, _ => true
  | String w word', String c s' =>
      (Ascii.eqb c w || Ascii.eqb c (upper_of w)) && spells_at_head word' s'
  | String _ _, EmptyString => false
  end.

(** Some slice of [s] spells [word] up to the case of its letters. *)
Fixpoint spelled_in (word s : string) : bool :=
  spells_at_head word s ||
  match s with
  | EmptyString => false
  | String _ rest => spelled_in word rest
  end.

(** [s] spells [word] as [lower()] reads it: each character of [word]
    is written as itself or as its capital, and a [k] may also be
    written as U+212A KELVIN SIGN. *)
Fixpoint spells_lowered (word s : string) : bool :=
  match word with
  | EmptyString =>
      match s with EmptyString => true | String _ _ => false end
  | String w word' =>
      match s with
      | String c s' =>
          if Ascii.eqb c w || Ascii.eqb c (upper_of w)
          then spells_lowered word' s'
          else
            match s' with
            | String c1 (String c2 s2) =>
                Ascii.eqb w "k" && Str.is_kelvin c c1 c2
                && spells_lowered word' s2
            | _ => false
            end
      | EmptyString => false
      end
  end.

(** The characters of [word] are ASCII, none is a capital and none is
    [i]: such a word is found in [s.lower()] only where [s] spells it. *)
Fixpoint plain_word (word : string) : bool :=
  match word with
  | EmptyString => true
  | String w rest =>
      (nat_of_ascii w <? 128)%nat && negb (Str.is_capital w)
      && negb (Ascii.eqb w "i") && plain_word rest
  end.

(** [u] holds the marker as [lower()] reads it. *)
Definition has_marker_lowered (u : string) : Prop :=
  exists pre mid post,
    u = pre ++ mid ++ post /\ spells_lowered "deepseek.com" mid = true.

(** U+212A KELVIN SIGN in UTF-8. *)
Definition kelvin_sign : string :=
  String (Str.byte 226) (String (Str.byte 132) (String (Str.byte 170) "")).

(** A URL that writes the [k] of the marker as U+212A KELVIN SIGN. *)
Definition kelvin_url : string :=
  "https://api.deepsee" ++ kelvin_sign ++ ".com/v1".

End Factory.

(** ** Dynamic operations on values *)

Module Py.

(** The number after the letter of an exponent group ([e-400], [E+5],
    [e5]); 0 for no group. *)
Definition exponent_value (exp : string) : Z :=
  match exp with
  | EmptyString => 0%Z
  | String _ rest =>
      match rest with
      | String sign ds =>
          if Ascii.eqb sign "-" then (- Json.int_of_digits 0 ds)%Z
          else if Ascii.eqb sign "+" then Json.int_of_digits 0 ds
          else Json.int_of_digits 0 rest
      | EmptyString => 0%Z
      end
  end.

(** The digits of a fraction group, without its dot. *)
Definition fraction_digits (frac : string) : string :=
  match frac with
  | EmptyString => EmptyString
  | String _ ds => ds
  end.

(** [bool(x)] for the float that [float(literal)] is, for a literal as
    [json.loads] passes it on: false exactly when the float is zero.
    [float] rounds to the nearest double, ties to even, so the result
    is zero when the digits are all 0 or when the value [m * 10 ^ e] is
    at most half the least positive double, 2 ^ -1075. *)
Definition float_truthy (literal : string) : bool :=
  if String.eqb literal "NaN" || String.eqb literal "Infinity"
     || String.eqb literal "-Infinity"
  then true
  else
    let unsigned :=
      match literal with
      | String c rest => if Ascii.eqb c "-" then rest else literal
      | EmptyString => literal
      end in
    match Json.integer_part unsigned with
    | None => false
    | Some (int_digits, rest) =>
        let (frac, rest1) := Json.fraction_part rest in
        let (exp, _) := Json.exponent_part rest1 in
        let m := Json.int_of_digits 0 (int_digits ++ fraction_digits frac) in
        let e := (exponent_value exp
                  - Z.of_nat (String.length (fraction_digits frac)))%Z in
        if (m =? 0)%Z then false
        else if (0 <=? e)%Z then true
        else (10 ^ (- e) <? m * 2 ^ 1075)%Z
    end.

(** [bool(v)] *)
Definition truthy (v : pyval) : bool :=
  match v with
  | VNone => false
  | VBool b => b
  | VInt n => negb (n =? 0)%Z
  | VFloat literal => float_truthy literal
  | VStr s => Str.truthy s
  | VList items => match items with [] => false | _ :: _ => true end
  | VDict items => match items with [] => false | _ :: _ => true end
  end.

(** [key in v] for a string [key]: a key of a mapping, an item of a
    list, a slice of a string; the other values are not containers. *)
Definition contains (key : string) (v : pyval) : result bool :=
  match v with
  | VDict items => Ok (Dict.mem items key)
  | VList items =>
      Ok (existsb (fun item =>
                     match item with
                     | VStr s => String.eqb s key
                     | _ => false
                     end) items)
  | VStr s => Ok (Str.contains key s)
  | VNone | VBool _ | VInt _ | VFloat _ => Raise TypeError
  end.

(** [v[key]] for a string [key]: only a mapping can be subscripted by a
    string. *)
Definition getitem (v : pyval) (key : string) : result pyval :=
  match v with
  | VDict items =>
      match Dict.get items key with
      | Some x => Ok x
      | None => Raise KeyError
      end
  | _ => Raise TypeError
  end.

(** [v[key] = x] for a string [key]. *)
Definition setitem (v : pyval) (key : string) (x : pyval) : result pyval :=
  match v with
  | VDict items => Ok (VDict (Dict.set items key x))
  | _ => Raise TypeError
  end.

(** The characters of a string, each a string of its own. *)
Fixpoint chars (s : string) : list pyval :=
  match s with
  | EmptyString => []
  | String c rest => VStr (String c "") :: chars rest
  end.

(** [for item in v: item = body(item)]: the items of a list, the keys
    of a mapping, the characters of a string.  Only the items of a list
    are objects the body can change; keys and characters are strings,
    so the loop leaves a mapping or a string as it was. *)
Definition for_in (body : pyval -> result pyval) (v : pyval) : result pyval :=
  match v with
  | VList items => items' <- for_each body items ;; Ok (VList items')
  | VDict items =>
      _ <- for_each body (map (fun kv => VStr (fst kv)) items) ;; Ok v
  | VStr s => _ <- for_each body (chars s) ;; Ok v
  | VNone | VBool _ | VInt _ | VFloat _ => Raise TypeError
  end.

End Py.

(** ** The objects of langchain *)

(** A message ([AIMessage] and the like).  [additional_kwargs] is
    [None] for an object without that attribute. *)
Record Message : Type := mkMessage {
  content : pyval;
  additional_kwargs : option Dict.t;
  response_metadata : pyval;
  msg_id : pyval
}.

(** A generation entry: a [ChatGeneration] has a [message], a plain
    [Generation] has none. *)
Record Generation : Type := mkGeneration {
  text : string;
  generation_info : pyval;
  message : option Message
}.

(** An item of [result.generations]: a list of generation entries, as
    in an [LLMResult], or one [ChatGeneration] object, as in a
    [ChatResult]. *)
Inductive batch : Type :=
| Batch (gens : list Generation)
| Single (chat : Generation).

(** The Generation Result: the object whose [generations] the source
    loops over. *)
Record GenerationResult : Type := mkResult {
  generations : list batch;
  llm_output : pyval
}.

(** A [ChatResult]: every item of [generations] is one
    [ChatGeneration]. *)
Definition is_chat_result (res : GenerationResult) : bool :=
  forallb (fun generation =>
             match generation with
             | Single chat =>
                 match message chat with Some _ => true | None => false end
             | Batch _ => false
             end) (generations res).

(** A call that returns, returns a [ChatResult]. *)
Definition returns_chat (outcome : result GenerationResult) : Prop :=
  match outcome with
  | Ok res => is_chat_result res = true
  | Raise _ => True
  end.

(** The value of a field of a generation entry. *)
Inductive field_value : Type :=
| FieldStr (s : string)
| FieldValue (v : pyval)
| FieldMessage (msg : Message).

(** What iterating a generation entry yields: pydantic's [__iter__]
    gives one [(name, value)] tuple for each field of the object. *)
Definition model_items (gen : Generation) : list (string * field_value) :=
  [("text", FieldStr (text gen));
   ("generation_info", FieldValue (generation_info gen));
   ("type", FieldStr (match message gen with
                      | Some _ => "ChatGeneration"
                      | None => "Generation"
                      end))]
  ++ match message gen with
     | Some msg => [("message", FieldMessage msg)]
     | None => []
     end.

(** ** The patched client *)

(** The methods of the base class [ChatOpenAI] that the subclass calls
    through [super()].  [_generate] and [_agenerate] of [ChatOpenAI]
    return a [ChatResult]. *)
Class BaseClient : Type := {
  prepared : Type;
  base_create_message_dicts : list Message -> option (list string) -> prepared;
  base_generate :
    list Message -> option (list string) -> Dict.t -> result GenerationResult;
  base_agenerate :
    list Message -> option (list string) -> Dict.t -> result GenerationResult;
  base_generate_chat :
    forall messages stop kwargs,
      returns_chat (base_generate messages stop kwargs);
  base_agenerate_chat :
    forall messages stop kwargs,
      returns_chat (base_agenerate messages stop kwargs)
}.

Module DeepSeekChatOpenAI.

Section WithInterpreter.

Context {py : Interpreter}.

(** Body of the innermost loop of [_generate], lines 34-40: what one
    item of [tool_calls] is after the iteration.  The assignment of
    line 38 changes the mapping under ["function"]; the tool call is
    returned with that mapping under the same key.  The [except] of
    line 39 catches [JSONDecodeError] and nothing else. *)
Definition generate_tool_call (tool_call : pyval) : result pyval :=
  has_function <- Py.contains "function" tool_call ;;
  if has_function then
    function <- Py.getitem tool_call "function" ;;
    has_arguments <- Py.contains "arguments" function ;;
    if has_arguments then
      function <- Py.getitem tool_call "function" ;;
      args <- Py.getitem function "arguments" ;;
      match args with
      | VStr text =>
          match Json.json_loads text with
          | Ok parsed =>
              function <- Py.getitem tool_call "function" ;;
              function' <- Py.setitem function "arguments" parsed ;;
              Py.setitem tool_call "function" function'
          | Raise JSONDecodeError => Ok tool_call
          | Raise e => Raise e
          end
      | _ => Ok tool_call
      end
    else Ok tool_call
  else Ok tool_call.

(** Lines 30-40 of [_generate] for a [gen] that is a generation
    entry. *)
Definition generate_gen (gen : Generation) : result Generation :=
  match message gen with
  | Some msg =>
      match additional_kwargs msg with
      | Some kwargs =>
          let tool_calls :=
            match Dict.get kwargs "tool_calls" with
            | Some v => v
            | None => VNone
            end in
          if Py.truthy tool_calls then
            tool_calls' <- Py.for_in generate_tool_call tool_calls ;;
            Ok (mkGeneration (text gen) (generation_info gen)
                  (Some (mkMessage (content msg)
                           (Some (Dict.set kwargs "tool_calls" tool_calls'))
                           (response_metadata msg) (msg_id msg))))
          else Ok gen
      | None => Ok gen
      end
  | None => Ok gen
  end.

(** Lines 30-40 of [_generate] for a [gen] that is a [(name, value)]
    tuple: a tuple has no attribute [message], the test of line 30 is
    false and nothing is done. *)
Definition generate_pair (gen : string * field_value)
  : result (string * field_value) :=
  Ok gen.

(** Lines 29-40 of [_generate]: the loop over one item of
    [result.generations].  A list yields its entries; a
    [ChatGeneration] yields its [(name, value)] tuples and is itself
    left as it is. *)
Definition generate_batch (generation : batch) : result batch :=
  match generation with
  | Batch gens => gens' <- for_each generate_gen gens ;; Ok (Batch gens')
  | Single chat =>
      _ <- for_each generate_pair (model_items chat) ;; Ok (Single chat)
  end.

(** Lines 28-42 of [_generate]: the pass over the result of the base
    call. *)
Definition generate_patch (res : GenerationResult) : result GenerationResult :=
  generations' <- for_each generate_batch (generations res) ;;
  Ok (mkResult generations' (llm_output res)).

(** Body of the innermost loop of [_agenerate], lines 54-60. *)
Definition agenerate_tool_call (tool_call : pyval) : result pyval :=
  has_function <- Py.contains "function" tool_call ;;
  if has_function then
    function <- Py.getitem tool_call "function" ;;
    has_arguments <- Py.contains "arguments" function ;;
    if has_arguments then
      function <- Py.getitem tool_call "function" ;;
      args <- Py.getitem function "arguments" ;;
      match args with
      | VStr text =>
          match Json.json_loads text with
          | Ok parsed =>
              function <- Py.getitem tool_call "function" ;;
              function' <- Py.setitem function "arguments" parsed ;;
              Py.setitem tool_call "function" function'
          | Raise JSONDecodeError => Ok tool_call
          | Raise e => Raise e
          end
      | _ => Ok tool_call
      end
    else Ok tool_call
  else Ok tool_call.

(** Lines 50-60 of [_agenerate] for a [gen] that is a generation
    entry. *)
Definition agenerate_gen (gen : Generation) : result Generation :=
  match message gen with
  | Some msg =>
      match additional_kwargs msg with
      | Some kwargs =>
          let tool_calls :=
            match Dict.get kwargs "tool_calls" with
            | Some v => v
            | None => VNone
            end in
          if Py.truthy tool_calls then
            tool_calls' <- Py.for_in agenerate_tool_call tool_calls ;;
            Ok (mkGeneration (text gen) (generation_info gen)
                  (Some (mkMessage (content msg)
                           (Some (Dict.set kwargs "tool_calls" tool_calls'))
                           (response_metadata msg) (msg_id msg))))
          else Ok gen
      | None => Ok gen
      end
  | None => Ok gen
  end.

(** Lines 50-60 of [_agenerate] for a [gen] that is a tuple. *)
Definition agenerate_pair (gen : string * field_value)
  : result (string * field_value) :=
  Ok gen.

(** Lines 49-60 of [_agenerate]. *)
Definition agenerate_batch (generation : batch) : result batch :=
  match generation with
  | Batch gens => gens' <- for_each agenerate_gen gens ;; Ok (Batch gens')
  | Single chat =>
      _ <- for_each agenerate_pair (model_items chat) ;; Ok (Single chat)
  end.

(** Lines 48-62 of [_agenerate]. *)
Definition agenerate_patch (res : GenerationResult) : result GenerationResult :=
  generations' <- for_each agenerate_batch (generations res) ;;
  Ok (mkResult generations' (llm_output res)).

Context {base : BaseClient}.

(** [_create_message_dicts] *)
Definition _create_message_dicts (messages : list Message)
    (stop : option (list string)) : prepared :=
  let message_dicts := base_create_message_dicts messages stop in
  message_dicts.

(** [_generate] *)
Definition _generate (messages : list Message) (stop : option (list string))
    (kwargs : Dict.t) : result GenerationResult :=
  res <- base_generate messages stop kwargs ;;
  generate_patch res.

(** [_agenerate]: the value the coroutine returns once the awaited base
    call has returned. *)
Definition _agenerate (messages : list Message) (stop : option (list string))
    (kwargs : Dict.t) : result GenerationResult :=
  res <- base_agenerate messages stop kwargs ;;
  agenerate_patch res.

End WithInterpreter.

End DeepSeekChatOpenAI.

(** ** What the pass is meant to compute

    The shape of §3 of the specification and the pass written as a
    function on values, to compare [generate_patch] with. *)

Module Shape.

(** The value under [tool_call["function"]["arguments"]], for a tool
    call that has one. *)
Definition arguments_of (tool_call : pyval) : option pyval :=
  match tool_call with
  | VDict items =>
      match Dict.get items "function" with
      | Some (VDict function) => Dict.get function "arguments"
      | _ => None
      end
  | _ => None
  end.

(** A tool call is a mapping; its [function] entry, when present, is a
    mapping. *)
Definition wf_tool_call (tool_call : pyval) : bool :=
  match tool_call with
  | VDict items =>
      match Dict.get items "function" with
      | Some function => is_dict function
      | None => true
      end
  | _ => false
  end.

(** [tool_calls] is absent, [None] or a list of tool calls. *)
Definition wf_tool_calls (tool_calls : option pyval) : bool :=
  match tool_calls with
  | None | Some VNone => true
  | Some (VList items) => forallb wf_tool_call items
  | Some _ => false
  end.

Definition wf_message (msg : Message) : bool :=
  match additional_kwargs msg with
  | Some kwargs => wf_tool_calls (Dict.get kwargs "tool_calls")
  | None => true
  end.

Definition wf_gen (gen : Generation) : bool :=
  match message gen with
  | Some msg => wf_message msg
  | None => true
  end.

(** The generation entries an item of [result.generations] holds, and
    those the inner loop of the pass gets as its [gen]: the entries of
    a list, none of a [ChatGeneration]. *)
Definition gens_of (generation : batch) : list Generation :=
  match generation with
  | Batch gens => gens
  | Single chat => [chat]
  end.

Definition reached_gens (generation : batch) : list Generation :=
  match generation with
  | Batch gens => gens
  | Single _ => []
  end.

(** A Generation Result whose reached entries are shaped as the data
    model says. *)
Definition wf_result (res : GenerationResult) : bool :=
  forallb (fun generation => forallb wf_gen (reached_gens generation))
          (generations res).

(** The tool calls of a generation entry, of a result. *)
Definition tool_calls_of_gen (gen : Generation) : list pyval :=
  match message gen with
  | Some msg =>
      match additional_kwargs msg with
      | Some kwargs =>
          match Dict.get kwargs "tool_calls" with
          | Some (VList items) => items
          | _ => []
          end
      | None => []
      end
  | None => []
  end.

(** Every tool call a result holds, and those the pass reaches. *)
Definition tool_calls_of (res : GenerationResult) : list pyval :=
  flat_map (fun generation => flat_map tool_calls_of_gen (gens_of generation))
           (generations res).

Definition reached_tool_calls (res : GenerationResult) : list pyval :=
  flat_map (fun generation =>
              flat_map tool_calls_of_gen (reached_gens generation))
           (generations res).

Definition arguments_list (tool_calls : list pyval) : list pyval :=
  flat_map (fun tool_call =>
              match arguments_of tool_call with
              | Some args => [args]
              | None => []
              end) tool_calls.

(** Every [arguments] value a result holds, in order: what the caller
    is given.  Then those the pass reaches. *)
Definition arguments_in (res : GenerationResult) : list pyval :=
  arguments_list (tool_calls_of res).

Definition reached_arguments (res : GenerationResult) : list pyval :=
  arguments_list (reached_tool_calls res).

Section WithInterpreter.

Context {py : Interpreter}.

(** An [arguments] value after the loop body has returned: a string
    that decodes becomes the decoded value, anything else stays. *)
Definition decoded (args : pyval) : pyval :=
  match args with
  | VStr text =>
      match Json.json_loads text with
      | Ok parsed => parsed
      | Raise _ => args
      end
  | _ => args
  end.

(** [json.loads] raises nothing on this value that line 39 does not
    catch. *)
Definition limit_free (args : pyval) : bool :=
  match args with
  | VStr text =>
      match Json.json_loads text with
      | Ok _ => true
      | Raise JSONDecodeError => true
      | Raise _ => false
      end
  | _ => true
  end.

Definition patched_tool_call (tool_call : pyval) : pyval :=
  match tool_call with
  | VDict items =>
      match Dict.get items "function" with
      | Some (VDict function) =>
          match Dict.get function "arguments" with
          | Some args =>
              VDict (Dict.set items "function"
                       (VDict (Dict.set function "arguments" (decoded args))))
          | None => tool_call
          end
      | _ => tool_call
      end
  | _ => tool_call
  end.

Definition patched_tool_calls (tool_calls : pyval) : pyval :=
  match tool_calls with
  | VList items => VList (map patched_tool_call items)
  | _ => tool_calls
  end.

Definition patched_gen (gen : Generation) : Generation :=
  match message gen with
  | Some msg =>
      match additional_kwargs msg with
      | Some kwargs =>
          match Dict.get kwargs "tool_calls" with
          | Some tool_calls =>
              if Py.truthy tool_calls then
                mkGeneration (text gen) (generation_info gen)
                  (Some (mkMessage (content msg)
                           (Some (Dict.set kwargs "tool_calls"
                                    (patched_tool_calls tool_calls)))
                           (response_metadata msg) (msg_id msg)))
              else gen
          | None => gen
          end
      | None => gen
      end
  | None => gen
  end.

Definition patched_batch (generation : batch) : batch :=
  match generation with
  | Batch gens => Batch (map patched_gen gens)
  | Single chat => Single chat
  end.

Definition patched_result (res : GenerationResult) : GenerationResult :=
  mkResult (map patched_batch (generations res)) (llm_output res).

(** The pass does not look at this entry's tool calls: no message, no
    [additional_kwargs], or a [tool_calls] that is absent or false
    (empty). *)
Definition no_tool_calls (gen : Generation) : bool :=
  match message gen with
  | Some msg =>
      match additional_kwargs msg with
      | Some kwargs =>
          match Dict.get kwargs "tool_calls" with
          | Some tool_calls => negb (Py.truthy tool_calls)
          | None => true
          end
      | None => true
      end
  | None => true
  end.

(** *** The frame: what may differ between a result and the patched
    one *)

(** Two mappings with the same keys in the same order, equal values
    everywhere but under [key], where [R] relates the values. *)
Definition dict_frame (key : string) (R : pyval -> pyval -> Prop)
    (d d' : Dict.t) : Prop :=
  Forall2 (fun kv kv' =>
             fst kv' = fst kv /\
             (snd kv' = snd kv \/ (fst kv = key /\ R (snd kv) (snd kv'))))
          d d'.

(** An [arguments] value is the old one, or the decoding of the old
    string. *)
Definition args_frame (args args' : pyval) : Prop :=
  args' = args \/
  exists text, args = VStr text /\ Json.json_loads text = Ok args'.

Definition function_frame (f f' : pyval) : Prop :=
  f' = f \/
  exists d d', f = VDict d /\ f' = VDict d' /\
               dict_frame "arguments" args_frame d d'.

Definition tool_call_frame (tc tc' : pyval) : Prop :=
  tc' = tc \/
  exists d d', tc = VDict d /\ tc' = VDict d' /\
               dict_frame "function" function_frame d d'.

Definition tool_calls_frame (v v' : pyval) : Prop :=
  v' = v \/
  exists l l', v = VList l /\ v' = VList l' /\ Forall2 tool_call_frame l l'.

Definition kwargs_frame (k k' : option Dict.t) : Prop :=
  match k, k' with
  | None, None => True
  | Some d, Some d' => dict_frame "tool_calls" tool_calls_frame d d'
  | _, _ => False
  end.

Definition message_frame (m m' : option Message) : Prop :=
  match m, m' with
  | None, None => True
  | Some msg, Some msg' =>
      content msg' = content msg /\
      response_metadata msg' = response_metadata msg /\
      msg_id msg' = msg_id msg /\
      kwargs_frame (additional_kwargs msg) (additional_kwargs msg')
  | _, _ => False
  end.

Definition gen_frame (gen gen' : Generation) : Prop :=
  text gen' = text gen /\
  generation_info gen' = generation_info gen /\
  message_frame (message gen) (message gen') /\
  (no_tool_calls gen = true -> gen' = gen).

Definition batch_frame (generation generation' : batch) : Prop :=
  match generation, generation' with
  | Batch gens, Batch gens' => Forall2 gen_frame gens gens'
  | Single chat, Single chat' => chat' = chat
  | _, _ => False
  end.

Definition result_frame (res res' : GenerationResult) : Prop :=
  llm_output res' = llm_output res /\
  Forall2 batch_frame (generations res) (generations res').

(** The pass raises what [json.loads] raised past line 39 on one of
    the arguments it reached. *)
Definition limit_raised (res : GenerationResult) : Prop :=
  exists e,
    DeepSeekChatOpenAI.generate_patch res = Raise e /\
    (e = RecursionError \/ e = ValueError) /\
    forallb limit_free (reached_arguments res) = false.

End WithInterpreter.

End Shape.

(** ** Sample data *)

Module Samples.

(** A tool call as the chat-completion endpoint lays it out. *)
Definition tool_call (id : string) (args : pyval) : pyval :=
  VDict [("id", VStr id); ("type", VStr "function");
         ("function", VDict [("name", VStr "buy"); ("arguments", args)])].

(** A chat generation whose message carries [tool_calls]. *)
Definition chat_gen (tool_calls : pyval) : Generation :=
  mkGeneration "" (VDict [("finish_reason", VStr "tool_calls")])
    (Some (mkMessage (VStr "")
             (Some [("refusal", VNone); ("tool_calls", tool_calls)])
             (VDict [("model_name", VStr "deepseek-chat")])
             (VStr "run-1"))).

(** A chat generation that answers in text. *)
Definition text_gen : Generation :=
  mkGeneration "hello" VNone
    (Some (mkMessage (VStr "hello") (Some []) (VDict []) (VStr "run-2"))).

(** A result in the layout of [LLMResult]: one list of entries. *)
Definition result_of (gens : list Generation) : GenerationResult :=
  mkResult [Batch gens] (VDict [("model_name", VStr "deepseek-chat")]).

(** A result in the layout of [ChatResult]: the entries themselves. *)
Definition chat_result_of (gens : list Generation) : GenerationResult :=
  mkResult (map Single gens) (VDict [("model_name", VStr "deepseek-chat")]).

Definition xy_text : string := Json.q "{'x':1,'y':'a'}".
Definition xy_value : pyval := VDict [("x", VInt 1); ("y", VStr "a")].

(** Three tool calls (text of an object, malformed text, a mapping
    already) beside generations without tool calls. *)
Definition mixed_gens : list Generation :=
  [chat_gen (VList [tool_call "call_0" (VStr xy_text);
                    tool_call "call_1" (VStr "not-json");
                    tool_call "call_2" xy_value]);
   text_gen;
   chat_gen (VList [])].

Definition mixed : GenerationResult := result_of mixed_gens.

Definition mixed_patched : GenerationResult :=
  result_of [chat_gen (VList [tool_call "call_0" xy_value;
                              tool_call "call_1" (VStr "not-json");
                              tool_call "call_2" xy_value]);
             text_gen;
             chat_gen (VList [])].

(** The same entries as [ChatOpenAI] hands them back. *)
Definition chat_mixed : GenerationResult := chat_result_of mixed_gens.

(** Every arguments value a mapping already. *)
Definition structured : GenerationResult :=
  result_of [chat_gen (VList [tool_call "call_0" xy_value]); text_gen].

(** A base client that answers every call with [chat_mixed]. *)
Definition stub_client : BaseClient :=
  {| prepared := list Message;
     base_create_message_dicts := fun messages _ => messages;
     base_generate := fun _ _ _ => Ok chat_mixed;
     base_agenerate := fun _ _ _ => Ok chat_mixed;
     base_generate_chat := fun _ _ _ => eq_refl;
     base_agenerate_chat := fun _ _ _ => eq_refl |}.

End Samples.

(** ** Observations and further sample data *)

Module Observe.

(** [gen.message.additional_kwargs], empty for an entry without
    one. *)
Definition kwargs_of (gen : Generation) : Dict.t :=
  match message gen with
  | Some msg =>
      match additional_kwargs msg with
      | Some kwargs => kwargs
      | None => []
      end
  | None => []
  end.

(** [tool_call.get(key)] for a tool call that is a mapping. *)
Definition entry (tool_call : pyval) (key : string) : option pyval :=
  match tool_call with
  | VDict items => Dict.get items key
  | _ => None
  end.

(** [tool_call["function"].get(key)] when both are mappings. *)
Definition function_entry (tool_call : pyval) (key : string) : option pyval :=
  match entry tool_call "function" with
  | Some function => entry function key
  | None => None
  end.

(** A tool call without a [function] entry. *)
Definition bare_call : pyval :=
  VDict [("id", VStr "call_9"); ("type", VStr "function")].

(** A tool call whose arguments are white space. *)
Definition blank_call : pyval := Samples.tool_call "call_8" (VStr "  ").

(** A tool call whose arguments open with a brace. *)
Definition brace_call : pyval :=
  Samples.tool_call "call_7" (VStr (Json.q " {'x': [1, 2]}")).

(** A tool call whose arguments are an integer of 4301 digits. *)
Definition long_int_call : pyval :=
  Samples.tool_call "call_6" (VStr (Json.repeat_char "1" 4301)).

(** Arguments of 1001 opening brackets, and a result in the layout of
    [LLMResult] that holds them beside arguments that decode. *)
Definition deep_text : string := Json.repeat_char "[" 1001.

Definition deep_result : GenerationResult :=
  Samples.result_of
    [Samples.chat_gen
       (VList [Samples.tool_call "call_0" (VStr deep_text);
               Samples.tool_call "call_1" (VStr Samples.xy_text)])].

(** A result against the data model: an item of [tool_calls] is
    [None]. *)
Definition ill_shaped : GenerationResult :=
  Samples.result_of
    [Samples.chat_gen (VList [Samples.tool_call "call_0" (VStr "{}"); VNone])].

(** A result with the legacy [function_call] entry beside
    [tool_calls]. *)
Definition legacy : GenerationResult :=
  Samples.result_of
    [mkGeneration "" VNone
       (Some (mkMessage (VStr "")
                (Some [("function_call",
                        VDict [("name", VStr "buy");
                               ("arguments", VStr "{}")]);
                       ("tool_calls",
                        VList [Samples.tool_call "call_0" (VStr "{}")])])
                (VDict []) (VStr "run-3")))].

(** A base client whose blocking call answers with
    [Samples.chat_mixed] and whose suspending call fails. *)
Definition flaky_client : BaseClient :=
  {| prepared := list Message;
     base_create_message_dicts := fun messages _ => messages;
     base_generate := fun _ _ _ => Ok Samples.chat_mixed;
     base_agenerate := fun _ _ _ => Raise (Upstream "timeout");
     base_generate_chat := fun _ _ _ => eq_refl;
     base_agenerate_chat := fun _ _ _ => I |}.

End Observe.

(** * Proofs *)

(** ** Strings *)

Section StrFacts.

Import Str.

Lemma append_assoc (a b c : string) : (a ++ b) ++ c = a ++ b ++ c.
Proof.
  induction a as [| x a IH]; simpl; [reflexivity | now rewrite IH].
Qed.


Lemma startswith_prefix (needle hay : string) :
  startswith needle hay = true <-> exists post, hay = needle ++ post.
Proof.
  revert hay. induction needle as [| a n IH]; intros hay; simpl.
  - split; [intros _; now exists hay | reflexivity].
  - destruct hay as [| b h].
    + split; [discriminate | intros [post H]; discriminate].
    + rewrite andb_true_iff, Ascii.eqb_eq, IH. split.
      * intros [-> [post ->]]. now exists post.
      * intros [post H]. injection H as -> ->. split; [reflexivity |].
        now exists post.
Qed.

Lemma contains_infix (needle hay : string) :
  contains needle hay = true <->
  exists pre post, hay = pre ++ needle ++ post.
Proof.
  induction hay as [| c h IH].
  - simpl. rewrite orb_false_r, startswith_prefix. split.
    + intros [post H]. now exists "", post.
    + intros (pre & post & H). destruct pre; simpl in H.
      * now exists post.
      * discriminate.
  - cbn [contains]. rewrite orb_true_iff, startswith_prefix, IH. split.
    + intros [[post H] | (pre & post & H)].
      * now exists "", post.
      * exists (String c pre), post. simpl. now rewrite H.
    + intros (pre & post & H). destruct pre as [| d pre]; simpl in H.
      * left. now exists post.
      * right. injection H as -> ->. now exists pre, post.
Qed.

Lemma contains_app_left (needle before hay : string) :
  startswith needle hay = true -> contains needle (before ++ hay) = true.
Proof.
  rewrite startswith_prefix, contains_infix. intros [post ->].
  now exists before, post.
Qed.

(** *** How [lower] reads the head of a string *)

Lemma lower_plain (c : ascii) (r : string) :
  special_head (String c r) = false ->
  lower (String c r) = String (lower_char c) (lower r).
Proof.
  destruct r as [| c1 r1]; [reflexivity |]. cbn [special_head lower].
  destruct (is_dotted_I c c1); [discriminate |].
  destruct r1 as [| c2 r2]; [reflexivity |].
  destruct (is_kelvin c c1 c2); [discriminate | reflexivity].
Qed.

Lemma lower_dotted (r : string) :
  lower (String (byte 196) (String (byte 176) r))
  = String "i" (String (byte 204) (String (byte 135) (lower r))).
Proof. reflexivity. Qed.

Lemma lower_kelvin (r : string) :
  lower (String (byte 226) (String (byte 132) (String (byte 170) r)))
  = String "k" (lower r).
Proof. reflexivity. Qed.

Lemma special_head_cases (s : string) :
  special_head s = true ->
  (exists r, s = String (byte 196) (String (byte 176) r)) \/
  (exists r, s = String (byte 226) (String (byte 132) (String (byte 170) r))).
Proof.
  destruct s as [| c [| c1 r1]]; try discriminate. cbn [special_head].
  unfold is_dotted_I, is_kelvin.
  destruct (Ascii.eqb c (byte 196)) eqn:E1;
    destruct (Ascii.eqb c1 (byte 176)) eqn:E2; cbn [andb orb].
  1: { intros _. left. apply Ascii.eqb_eq in E1, E2. subst. now exists r1. }
  all: destruct r1 as [| c2 r2]; try discriminate;
    destruct (Ascii.eqb c (byte 226)) eqn:E3; try discriminate;
    destruct (Ascii.eqb c1 (byte 132)) eqn:E4; try discriminate;
    destruct (Ascii.eqb c2 (byte 170)) eqn:E5; try discriminate;
    intros _; right; apply Ascii.eqb_eq in E3, E4, E5; subst; now exists r2.
Qed.

Lemma special_head_lead (c : ascii) (r : string) :
  special_head (String c r) = true -> c = byte 196 \/ c = byte 226.
Proof.
  intros H. destruct (special_head_cases _ H) as [[r' E] | [r' E]];
    injection E as -> _; auto.
Qed.

Lemma lower_other_head (c : ascii) (r : string) :
  c <> byte 196 -> c <> byte 226 ->
  lower (String c r) = String (lower_char c) (lower r).
Proof.
  intros H1 H2. apply lower_plain.
  destruct (special_head (String c r)) eqn:E; [| reflexivity].
  destruct (special_head_lead _ _ E); contradiction.
Qed.

Lemma lower_ascii_head (c : ascii) (r : string) :
  nat_of_ascii c < 128 ->
  lower (String c r) = String (lower_char c) (lower r).
Proof.
  intros H. apply lower_other_head; intros ->; vm_compute in H; lia.
Qed.

Lemma lower_char_not_capital (c : ascii) :
  is_capital (lower_char c) = false.
Proof.
  unfold lower_char. destruct (is_capital c) eqn:E; [| exact E].
  unfold is_capital in *.
  pose proof (nat_ascii_bounded c) as Hc.
  apply andb_true_iff in E. destruct E as [E1 E2].
  apply Nat.leb_le in E1, E2.
  rewrite nat_ascii_embedding by lia.
  apply andb_false_iff. right. apply Nat.leb_gt. lia.
Qed.

Lemma lower_char_idem (c : ascii) :
  lower_char (lower_char c) = lower_char c.
Proof.
  unfold lower_char at 1. now rewrite lower_char_not_capital.
Qed.

(** A byte past U+007F is its own [lower_char], and only its own. *)
Lemma lower_char_high (c b : ascii) :
  128 <= nat_of_ascii b -> lower_char c = b -> c = b.
Proof.
  unfold lower_char. destruct (is_capital c) eqn:E; [| auto].
  intros Hb <-. unfold is_capital in E.
  apply andb_true_iff in E. destruct E as [E1 E2].
  apply Nat.leb_le in E1, E2.
  rewrite nat_ascii_embedding in Hb by lia. lia.
Qed.

Lemma tail_byte_high (b : ascii) :
  is_tail_byte b = true -> 128 <= nat_of_ascii b.
Proof.
  unfold is_tail_byte. rewrite !orb_true_iff, !Ascii.eqb_eq.
  intros [[-> | ->] | ->]; vm_compute; lia.
Qed.

(** A tail byte at the head of [lower r] was at the head of [r]. *)
Lemma lower_tail_byte_head (r y : string) (b : ascii) :
  is_tail_byte b = true ->
  lower r = String b y ->
  exists r', r = String b r' /\ y = lower r'.
Proof.
  intros Hb H. destruct r as [| c r']; [discriminate |].
  destruct (special_head (String c r')) eqn:E.
  - destruct (special_head_cases _ E) as [[r0 E0] | [r0 E0]];
      rewrite E0 in H; [rewrite lower_dotted in H | rewrite lower_kelvin in H];
      injection H as <- _; discriminate.
  - rewrite lower_plain in H by exact E. injection H as Hc <-.
    apply lower_char_high in Hc; [| now apply tail_byte_high].
    subst c. now exists r'.
Qed.

Lemma special_head_lower (c : ascii) (r : string) :
  special_head (String c r) = false ->
  special_head (String c (lower r)) = false.
Proof.
  intros H. destruct (special_head (String c (lower r))) eqn:E;
    [| reflexivity].
  destruct (special_head_cases _ E) as [[y E0] | [y E0]];
    injection E0 as -> E1.
  - apply lower_tail_byte_head in E1; [| reflexivity].
    destruct E1 as (r' & -> & _). discriminate.
  - apply lower_tail_byte_head in E1; [| reflexivity].
    destruct E1 as (r1 & -> & E2). symmetry in E2.
    apply lower_tail_byte_head in E2; [| reflexivity].
    destruct E2 as (r2 & -> & _). discriminate.
Qed.

Lemma lower_idem_bounded (n : nat) :
  forall s, String.length s <= n -> lower (lower s) = lower s.
Proof.
  induction n as [| n IH]; intros s Hlen.
  - destruct s; [reflexivity | simpl in Hlen; lia].
  - destruct s as [| c r]; [reflexivity |].
    destruct (special_head (String c r)) eqn:E.
    + destruct (special_head_cases _ E) as [[r0 E0] | [r0 E0]];
        rewrite E0 in *; simpl in Hlen.
      * rewrite lower_dotted.
        rewrite (lower_ascii_head "i") by (vm_compute; lia).
        rewrite (lower_other_head (byte 204)) by discriminate.
        rewrite (lower_other_head (byte 135)) by discriminate.
        rewrite IH by lia. reflexivity.
      * rewrite lower_kelvin.
        rewrite (lower_ascii_head "k") by (vm_compute; lia).
        rewrite IH by lia. reflexivity.
    + rewrite lower_plain by exact E. simpl in Hlen.
      assert (Hhead : special_head (String (lower_char c) (lower r)) = false).
      { destruct (special_head (String (lower_char c) (lower r))) eqn:E';
          [| reflexivity].
        assert (Hc : lower_char c = c).
        { destruct (special_head_lead _ _ E') as [Hl | Hl];
            apply lower_char_high in Hl; try (vm_compute; lia);
            now rewrite Hl. }
        rewrite Hc in E'. now rewrite special_head_lower in E'. }
      rewrite lower_plain by exact Hhead.
      rewrite lower_char_idem, IH by lia. reflexivity.
Qed.

Lemma lower_idem (s : string) : lower (lower s) = lower s.
Proof. now apply (lower_idem_bounded (String.length s)). Qed.

(** [lower] reads a concatenation piece by piece when the second piece
    does not open with a tail byte. *)
Lemma special_head_app (c : ascii) (r x : string) :
  special_head (String c r) = false ->
  starts_clean x = true ->
  special_head (String c (r ++ x)) = false.
Proof.
  intros H Hx.
  destruct (special_head (String c (r ++ x))) eqn:E; [| reflexivity].
  destruct r as [| c1 [| c2 r2]]; cbn [append] in E.
  - destruct (special_head_cases _ E) as [[y E0] | [y E0]];
      injection E0 as -> ->; discriminate.
  - destruct (special_head_cases _ E) as [[y E0] | [y E0]].
    + injection E0 as -> -> _. discriminate.
    + injection E0 as -> -> ->. discriminate.
  - change (special_head (String c (String c1 (String c2 r2))) = true) in E.
    congruence.
Qed.

Lemma lower_app_clean_bounded (n : nat) :
  forall pre x,
    String.length pre <= n -> starts_clean x = true ->
    lower (pre ++ x) = lower pre ++ lower x.
Proof.
  induction n as [| n IH]; intros pre x Hlen Hx.
  - destruct pre; [reflexivity | simpl in Hlen; lia].
  - destruct pre as [| c r]; [reflexivity |].
    destruct (special_head (String c r)) eqn:E.
    + destruct (special_head_cases _ E) as [[r0 E0] | [r0 E0]];
        rewrite E0 in *; simpl in Hlen; cbn [append].
      * rewrite !lower_dotted, IH by (lia || assumption). reflexivity.
      * rewrite !lower_kelvin, IH by (lia || assumption). reflexivity.
    + simpl in Hlen. cbn [append].
      rewrite (lower_plain c (r ++ x)) by now apply special_head_app.
      rewrite lower_plain by exact E.
      rewrite IH by (lia || assumption). reflexivity.
Qed.

Lemma lower_app_clean (pre x : string) :
  starts_clean x = true -> lower (pre ++ x) = lower pre ++ lower x.
Proof. now apply (lower_app_clean_bounded (String.length pre)). Qed.

End StrFacts.

(** ** The factory *)

Section FactoryFacts.

Import Factory.

Lemma spells_char (w c : ascii) :
  Str.is_capital w = false ->
  (Ascii.eqb c w || Ascii.eqb c (upper_of w) = true <-> Str.lower_char c = w).
Proof.
  unfold Str.is_capital, Str.lower_char, Str.is_capital, upper_of.
  intros Hw. rewrite orb_true_iff, !Ascii.eqb_eq.
  pose proof (nat_ascii_bounded c) as Hc.
  pose proof (nat_ascii_bounded w) as Hwb.
  destruct ((65 <=? nat_of_ascii c) && (nat_of_ascii c <=? 90))%nat eqn:Ec;
    destruct ((97 <=? nat_of_ascii w) && (nat_of_ascii w <=? 122))%nat eqn:Ew;
    rewrite ?andb_true_iff, ?andb_false_iff, ?Nat.leb_le, ?Nat.leb_gt in *.
  - split.
    + intros [-> | ->]; [lia |].
      rewrite nat_ascii_embedding by lia.
      replace (nat_of_ascii w - 32 + 32) with (nat_of_ascii w) by lia.
      apply ascii_nat_embedding.
    + intros <-. right.
      rewrite nat_ascii_embedding by lia.
      replace (nat_of_ascii c + 32 - 32) with (nat_of_ascii c) by lia.
      symmetry. apply ascii_nat_embedding.
  - split.
    + intros [-> | ->]; lia.
    + intros <-. rewrite nat_ascii_embedding in Ew by lia. lia.
  - split.
    + intros [-> | ->]; [reflexivity |].
      rewrite nat_ascii_embedding in Ec by lia. lia.
    + intros ->. now left.
  - split.
    + now intros [-> | ->].
    + intros ->. now left.
Qed.

Lemma plain_word_head (w : ascii) (word : string) :
  plain_word (String w word) = true ->
  nat_of_ascii w < 128 /\ Str.is_capital w = false /\ w <> "i"%char /\
  plain_word word = true.
Proof.
  cbn [plain_word]. rewrite !andb_true_iff, !negb_true_iff, Nat.ltb_lt.
  intros [[[H1 H2] H3] H4]. repeat split; auto.
  intros ->. discriminate.
Qed.

Lemma upper_of_ascii (w : ascii) :
  nat_of_ascii w < 128 -> nat_of_ascii (upper_of w) < 128.
Proof.
  unfold upper_of. intros H.
  destruct ((97 <=? nat_of_ascii w) && (nat_of_ascii w <=? 122))%nat;
    [| exact H].
  rewrite nat_ascii_embedding by lia. lia.
Qed.

(** Where [lower u] opens with [word], [u] opens with a spelling of
    it. *)
Lemma startswith_lower_spelled (word : string) :
  plain_word word = true ->
  forall u,
    Str.startswith word (Str.lower u) = true ->
    exists mid post, u = mid ++ post /\ spells_lowered word mid = true.
Proof.
  induction word as [| w word IH]; intros Hword u H.
  - now exists "", u.
  - destruct (plain_word_head _ _ Hword) as (Hascii & Hcap & Hi & Hrest).
    destruct u as [| c r]; [discriminate |].
    destruct (Str.special_head (String c r)) eqn:E.
    + destruct (special_head_cases _ E) as [[r0 E0] | [r0 E0]];
        rewrite E0 in *.
      * rewrite lower_dotted in H. cbn [Str.startswith] in H.
        apply andb_true_iff in H. destruct H as [H _].
        apply Ascii.eqb_eq in H. contradiction.
      * rewrite lower_kelvin in H. cbn [Str.startswith] in H.
        apply andb_true_iff in H. destruct H as [Hw H].
        apply Ascii.eqb_eq in Hw. subst w.
        destruct (IH Hrest r0 H) as (mid & post & -> & Hmid).
        exists (String (Str.byte 226)
                  (String (Str.byte 132) (String (Str.byte 170) mid))), post.
        split; [reflexivity |]. cbn. exact Hmid.
    + rewrite lower_plain in H by exact E. cbn [Str.startswith] in H.
      apply andb_true_iff in H. destruct H as [Hw H].
      apply Ascii.eqb_eq in Hw. symmetry in Hw.
      apply (spells_char w c Hcap) in Hw.
      destruct (IH Hrest r H) as (mid & post & -> & Hmid).
      exists (String c mid), post. split; [reflexivity |].
      cbn [spells_lowered]. now rewrite Hw.
Qed.

Lemma contains_lower_spelled_bounded (word : string) (n : nat) :
  plain_word word = true ->
  forall u,
    String.length u <= n ->
    Str.contains word (Str.lower u) = true ->
    exists pre mid post,
      u = pre ++ mid ++ post /\ spells_lowered word mid = true.
Proof.
  intros Hword. induction n as [| n IH]; intros u Hlen H.
  - destruct u; [| simpl in Hlen; lia].
    destruct word; [now exists "", "", "" | discriminate].
  - destruct (Str.startswith word (Str.lower u)) eqn:Hsw.
    { destruct (startswith_lower_spelled word Hword u Hsw)
        as (mid & post & -> & Hmid).
      now exists "", mid, post. }
    destruct word as [| w word]; [discriminate |].
    destruct (plain_word_head _ _ Hword) as (Hascii & _ & _ & _).
    assert (Hhigh : forall b y,
               128 <= nat_of_ascii b ->
               Str.startswith (String w word) (String b y) = false).
    { intros b y Hb. cbn [Str.startswith].
      destruct (Ascii.eqb w b) eqn:Eb; [| reflexivity].
      apply Ascii.eqb_eq in Eb. subst b. lia. }
    destruct u as [| c r]; [discriminate |].
    assert (Hstep : forall r0 before,
               String.length r0 <= n ->
               String c r = before ++ r0 ->
               Str.contains (String w word) (Str.lower r0) = true ->
               exists pre mid post,
                 String c r = pre ++ mid ++ post /\
                 spells_lowered (String w word) mid = true).
    { intros r0 before Hr0 Hu Hc.
      destruct (IH r0 Hr0 Hc) as (pre & mid & post & -> & Hmid).
      exists (before ++ pre), mid, post. split; [| exact Hmid].
      now rewrite Hu, append_assoc. }
    destruct (Str.special_head (String c r)) eqn:E.
    + destruct (special_head_cases _ E) as [[r0 E0] | [r0 E0]];
        rewrite E0 in *; simpl in Hlen.
      * rewrite lower_dotted in H, Hsw.
        cbn [Str.contains] in H. rewrite Hsw in H.
        rewrite !Hhigh in H by (vm_compute; lia). cbn [orb] in H.
        apply (Hstep r0 (String (Str.byte 196) (String (Str.byte 176) "")));
          [lia | reflexivity | exact H].
      * rewrite lower_kelvin in H, Hsw.
        cbn [Str.contains] in H. rewrite Hsw in H. cbn [orb] in H.
        apply (Hstep r0 (String (Str.byte 226)
                           (String (Str.byte 132)
                              (String (Str.byte 170) ""))));
          [lia | reflexivity | exact H].
    + rewrite lower_plain in H, Hsw by exact E. simpl in Hlen.
      cbn [Str.contains] in H. rewrite Hsw in H. cbn [orb] in H.
      apply (Hstep r (String c "")); [lia | reflexivity | exact H].
Qed.

(** A spelling of [word] at the head of [s] lower-cases to [word]. *)
Lemma spelled_lower_startswith (word : string) :
  plain_word word = true ->
  forall mid post,
    spells_lowered word mid = true ->
    Str.startswith word (Str.lower (mid ++ post)) = true.
Proof.
  induction word as [| w word IH]; intros Hword mid post H;
    [reflexivity |].
  destruct (plain_word_head _ _ Hword) as (Hascii & Hcap & Hi & Hrest).
  destruct mid as [| c mid]; [discriminate |]. cbn [spells_lowered] in H.
  destruct (Ascii.eqb c w || Ascii.eqb c (upper_of w)) eqn:Ec.
  - assert (Hc : nat_of_ascii c < 128).
    { apply orb_true_iff in Ec. rewrite !Ascii.eqb_eq in Ec.
      destruct Ec as [-> | ->]; [exact Hascii | now apply upper_of_ascii]. }
    cbn [append]. rewrite lower_ascii_head by exact Hc.
    cbn [Str.startswith]. apply (spells_char w c Hcap) in Ec.
    rewrite Ec, Ascii.eqb_refl. now apply IH.
  - destruct mid as [| c1 [| c2 mid]]; try discriminate.
    apply andb_true_iff in H. destruct H as [H Hmid].
    apply andb_true_iff in H. destruct H as [Hw Hk].
    apply Ascii.eqb_eq in Hw. subst w.
    unfold Str.is_kelvin in Hk. rewrite !andb_true_iff, !Ascii.eqb_eq in Hk.
    destruct Hk as [[-> ->] ->]. cbn [append]. rewrite lower_kelvin.
    cbn [Str.startswith]. rewrite Ascii.eqb_refl. now apply IH.
Qed.

Lemma spelled_starts_clean (w : ascii) (word mid post : string) :
  plain_word (String w word) = true ->
  spells_lowered (String w word) mid = true ->
  Str.starts_clean (mid ++ post) = true.
Proof.
  intros Hword H.
  destruct (plain_word_head _ _ Hword) as (Hascii & _ & _ & _).
  destruct mid as [| c mid]; [discriminate |]. cbn [spells_lowered] in H.
  cbn [append Str.starts_clean]. apply negb_true_iff.
  destruct (Str.is_tail_byte c) eqn:Et; [| reflexivity].
  pose proof (tail_byte_high c Et) as Hc.
  destruct (Ascii.eqb c w || Ascii.eqb c (upper_of w)) eqn:Ec.
  - apply orb_true_iff in Ec. rewrite !Ascii.eqb_eq in Ec.
    pose proof (upper_of_ascii w Hascii).
    destruct Ec as [-> | ->]; lia.
  - destruct mid as [| c1 [| c2 mid]]; try discriminate.
    apply andb_true_iff in H. destruct H as [H _].
    apply andb_true_iff in H. destruct H as [_ Hk].
    unfold Str.is_kelvin in Hk. rewrite !andb_true_iff, !Ascii.eqb_eq in Hk.
    destruct Hk as [[-> _] _]. discriminate.
Qed.

(** [word] is found in [u.lower()] exactly where [u] spells it. *)
Lemma contains_lower_spelled (word u : string) :
  plain_word word = true ->
  (Str.contains word (Str.lower u) = true <->
   exists pre mid post,
     u = pre ++ mid ++ post /\ spells_lowered word mid = true).
Proof.
  intros Hword. split.
  - now apply (contains_lower_spelled_bounded word (String.length u)).
  - intros (pre & mid & post & -> & Hmid).
    destruct word as [| w word]; [now destruct (Str.lower _) |].
    rewrite lower_app_clean
      by now apply (spelled_starts_clean w word).
    apply contains_app_left. now apply spelled_lower_startswith.
Qed.


Lemma contains_marker (u : string) :
  Str.contains "deepseek.com" (Str.lower u) = true <-> has_marker_lowered u.
Proof.
  now apply contains_lower_spelled.
Qed.

(** A slice that spells [word] in ASCII letters is found by
    [spelled_in]. *)
Lemma spells_at_head_spelled (word mid post : string) :
  spells word mid = true -> spells_at_head word (mid ++ post) = true.
Proof.
  revert mid. induction word as [| w word IH]; intros mid H;
    [reflexivity |].
  destruct mid as [| c mid]; [discriminate |]. cbn [spells] in H.
  apply andb_true_iff in H. destruct H as [Hc H].
  cbn [append spells_at_head]. rewrite Hc. now apply IH.
Qed.

Lemma spelled_in_slice (word pre mid post : string) :
  spells word mid = true -> spelled_in word (pre ++ mid ++ post) = true.
Proof.
  intros H. induction pre as [| c pre IH]; cbn [append].
  - destruct (mid ++ post) eqn:E; cbn [spelled_in]; rewrite <- E;
      now rewrite spells_at_head_spelled.
  - cbn [spelled_in]. rewrite IH. apply orb_true_r.
Qed.

Lemma has_marker_any_case_spelled (u : string) :
  has_marker_any_case u -> spelled_in "deepseek.com" u = true.
Proof.
  intros (pre & mid & post & -> & H). now apply spelled_in_slice.
Qed.

End FactoryFacts.

Section FactoryClaims.

Import Factory.

(** The routing test of [create_chat_model] is the predicate
    [is_deepseek_official_api]. *)
Lemma routing_test (url : option string) :
  and_truthy (is_official_deepseek url)
  = is_deepseek_official_api url.
Proof.
  destruct url as [[| c u] |]; reflexivity.
Qed.

Lemma create_chat_model_class name url key retries seconds
    verbose :
  cls (snd (create_chat_model name url key retries seconds
              verbose))
  = if is_deepseek_official_api url
    then DeepSeekChatOpenAI else ChatOpenAI.
Proof.
  unfold create_chat_model. rewrite routing_test.
  now destruct (is_deepseek_official_api url).
Qed.

Lemma official_api_marker (url : option string) :
  is_deepseek_official_api url = true <->
  exists u, url = Some u /\ has_marker_lowered u.
Proof.
  destruct url as [u |]; simpl.
  - rewrite contains_marker. split.
    + intros H. now exists u.
    + intros (u' & [= <-] & H). exact H.
  - split; [discriminate | intros (u & H & _); discriminate].
Qed.

Lemma spells_spells_lowered (word mid : string) :
  spells word mid = true -> spells_lowered word mid = true.
Proof.
  revert mid. induction word as [| w word IH]; intros mid H.
  - destruct mid; [reflexivity | discriminate].
  - destruct mid as [| c mid]; [discriminate |]. cbn [spells] in H.
    apply andb_true_iff in H. destruct H as [Hc H].
    cbn [spells_lowered]. rewrite Hc. now apply IH.
Qed.

Lemma any_case_marker_lowered (u : string) :
  has_marker_any_case u -> has_marker_lowered u.
Proof.
  intros (pre & mid & post & -> & H). exists pre, mid, post.
  split; [reflexivity | now apply spells_spells_lowered].
Qed.

(** Against C1 as stated: a [base_url] that writes the [k] of the
    marker as U+212A KELVIN SIGN holds ["deepseek.com"] in no letter
    case, and [create_chat_model] returns a [DeepSeekChatOpenAI] for
    it, because [lower()] turns that sign into [k]. *)
Lemma kelvin_url_routed_to_patched :
  cls (snd (create_chat_model "deepseek-chat" (Some kelvin_url)
              (Some "sk-test") 3 30 false))
  = DeepSeekChatOpenAI /\
  spelled_in "deepseek.com" kelvin_url = false /\
  ~ has_marker_any_case kelvin_url.
Proof.
  split; [reflexivity |]. split; [reflexivity |].
  intros H. apply has_marker_any_case_spelled in H. discriminate H.
Qed.

(** C1, amended.  [create_chat_model] returns a [DeepSeekChatOpenAI]
    exactly for a [base_url] that holds ["deepseek.com"] as [lower()]
    reads it: spelled in any case of its ASCII letters, where a [k] may
    also be written U+212A KELVIN SIGN.  Every [base_url] that holds
    the marker in some letter case is among them.  For every other
    value, [None] included, it returns a [ChatOpenAI].  The client
    carries the given model identifier either way. *)
Theorem create_chat_model_routing :
  forall name url key retries seconds verbose,
    let client :=
      snd (create_chat_model name url key retries seconds
             verbose) in
    Factory.model client = name /\
    (cls client = DeepSeekChatOpenAI <->
     exists u, url = Some u /\ has_marker_lowered u) /\
    (cls client = ChatOpenAI <->
     ~ exists u, url = Some u /\ has_marker_lowered u) /\
    (forall u, url = Some u -> has_marker_any_case u ->
               cls client = DeepSeekChatOpenAI).
Proof.
  intros name url key retries seconds verbose client.
  subst client. rewrite create_chat_model_class.
  rewrite <- official_api_marker. split; [| split; [| split]].
  - unfold create_chat_model. now destruct (and_truthy _).
  - destruct (is_deepseek_official_api url); split; congruence.
  - destruct (is_deepseek_official_api url); split; congruence.
  - intros u -> H. apply any_case_marker_lowered in H.
    assert (Ho : is_deepseek_official_api (Some u) = true).
    { apply official_api_marker. now exists u. }
    now rewrite Ho.
Qed.

(** The two calls of §8 of the specification. *)
Example create_chat_model_official :
  snd (create_chat_model "deepseek-chat" (Some "https://api.deepseek.com/v1")
         (Some "sk-test") default_max_retries default_timeout false)
  = mkClient DeepSeekChatOpenAI "deepseek-chat"
      (Some "https://api.deepseek.com/v1") (Some "sk-test") 3 30.
Proof. reflexivity. Qed.

Example create_chat_model_proxy :
  snd (create_chat_model "deepseek/deepseek-chat"
         (Some "https://proxy.example.com/v1") (Some "sk-test")
         default_max_retries default_timeout false)
  = mkClient ChatOpenAI "deepseek/deepseek-chat"
      (Some "https://proxy.example.com/v1") (Some "sk-test") 3 30.
Proof. reflexivity. Qed.

Example create_chat_model_upper_case :
  cls (snd (create_chat_model "deepseek-chat"
              (Some "HTTPS://API.DeepSeek.COM/v1") None 3 30 true))
  = DeepSeekChatOpenAI.
Proof. reflexivity. Qed.

(** C8.  [is_deepseek_official_api] is the routing test of
    [create_chat_model]: for every [base_url] the factory returns a
    [DeepSeekChatOpenAI] exactly when the predicate is true, and the
    predicate is false when [base_url] is absent. *)
Theorem is_deepseek_official_api_routes :
  forall name url key retries seconds verbose,
    (cls (snd (create_chat_model name url key retries seconds
                 verbose)) = DeepSeekChatOpenAI <->
     is_deepseek_official_api url = true) /\
    is_deepseek_official_api url
    = and_truthy (is_official_deepseek url) /\
    is_deepseek_official_api None = false /\
    is_deepseek_official_api (Some "") = false.
Proof.
  intros. rewrite create_chat_model_class, routing_test.
  repeat split; try reflexivity;
    destruct (is_deepseek_official_api url); congruence.
Qed.

(** C9.  In both branches the constructor receives the given [model],
    [base_url], [api_key], [max_retries] and [timeout]. *)
Theorem create_chat_model_passes_parameters :
  forall name url key retries seconds verbose,
    let client :=
      snd (create_chat_model name url key retries seconds
             verbose) in
    Factory.model client = name /\
    Factory.base_url client = url /\
    Factory.api_key client = key /\
    Factory.max_retries client = retries /\
    Factory.timeout client = seconds.
Proof.
  intros. subst client. unfold create_chat_model.
  destruct (and_truthy _); repeat split.
Qed.


(** X2.  The test is not anchored: a [base_url] routed to the patched
    client is still routed there with any text put before and after
    it, and for any model, key, retry count and timeout. *)
Theorem routing_survives_extension :
  forall name url key retries seconds verbose,
    cls (snd (create_chat_model name (Some url) key retries seconds verbose))
    = DeepSeekChatOpenAI ->
    forall before after name' key' retries' seconds' verbose',
      cls (snd (create_chat_model name' (Some (before ++ url ++ after)) key'
                  retries' seconds' verbose'))
      = DeepSeekChatOpenAI /\
      is_deepseek_official_api (Some (before ++ url ++ after)) = true.
Proof.
  intros name url key retries seconds verbose H before after name' key'
    retries' seconds' verbose'.
  rewrite create_chat_model_class in *.
  assert (Hext : is_deepseek_official_api (Some (before ++ url ++ after))
                 = true).
  { destruct (is_deepseek_official_api (Some url)) eqn:E; [| discriminate].
    apply official_api_marker in E.
    destruct E as (u & [= <-] & pre & mid & post & -> & Hmid).
    apply official_api_marker. eexists. split; [reflexivity |].
    exists (before ++ pre), mid, (post ++ after).
    split; [| exact Hmid]. now rewrite !append_assoc. }
  now rewrite Hext.
Qed.

Lemma routing_survives_extension_witness :
  cls (snd (create_chat_model "deepseek-reasoner"
              (Some ("https://" ++ "api.DeepSeek.com" ++ "/beta")) None
              5 60 true))
  = DeepSeekChatOpenAI /\
  is_deepseek_official_api (Some ("https://" ++ "api.DeepSeek.com" ++ "/beta"))
  = true.
Proof.
  exact (routing_survives_extension "deepseek-chat" "api.DeepSeek.com" None
           3%Z 30%Z false eq_refl
           "https://" "/beta" "deepseek-reasoner" None 5%Z 60%Z true).
Defined.



(** X4.  The routing reads the [base_url] through [lower()] only: a
    URL and its lower-casing get clients of the same class, and the
    predicate gives them the same answer. *)
Theorem routing_ignores_case :
  forall name url key retries seconds verbose,
    cls (snd (create_chat_model name (Some (Str.lower url)) key retries
                seconds verbose))
    = cls (snd (create_chat_model name (Some url) key retries seconds
                  verbose)) /\
    is_deepseek_official_api (Some (Str.lower url))
    = is_deepseek_official_api (Some url).
Proof.
  intros. rewrite !create_chat_model_class. simpl.
  rewrite lower_idem. split; reflexivity.
Qed.

End FactoryClaims.

(** ** The decoder always answers

    A loop of the decoder gets more fuel than the text has characters.
    Every scanner leaves less text than it was given, so that fuel is
    never used up: [json_loads] raises [JSONDecodeError] for an error
    of the decoder and for nothing else. *)

Section JsonFacts.

Import Json.

Context {py : Interpreter}.

Lemma skip_ws_length (s : string) :
  String.length (skip_ws s) <= String.length s.
Proof.
  induction s as [| c s IH]; simpl; [lia |].
  destruct (is_ws c); simpl; lia.
Qed.

Lemma progresses_error {A : Type} (s : string) :
  progresses (@DecodeError A) s.
Proof. split; [discriminate | intros a rest H; discriminate]. Qed.

Lemma progresses_recursion {A : Type} (s : string) :
  progresses (@RecursionLimit A) s.
Proof. split; [discriminate | intros a rest H; discriminate]. Qed.

Lemma progresses_digits {A : Type} (s : string) :
  progresses (@DigitLimit A) s.
Proof. split; [discriminate | intros a rest H; discriminate]. Qed.

Lemma progresses_scanned {A : Type} (a : A) (rest s : string) :
  String.length rest < String.length s -> progresses (Scanned a rest) s.
Proof.
  intros H. split; [discriminate |]. now intros a' rest' [= _ <-].
Qed.

Lemma progresses_longer {A : Type} (r : scan A) (s s' : string) :
  progresses r s -> String.length s <= String.length s' -> progresses r s'.
Proof.
  intros [H1 H2] Hle. split; [exact H1 |].
  intros a rest E. specialize (H2 a rest E). lia.
Qed.

Lemma progresses_prepend (chunk : string) (r : scan string) (s : string) :
  progresses r s -> progresses (prepend chunk r) s.
Proof.
  intros [H1 H2]. destruct r as [x rest | | | |]; simpl.
  - apply progresses_scanned. now apply (H2 x).
  - apply progresses_error.
  - apply progresses_recursion.
  - apply progresses_digits.
  - contradiction.
Qed.

Lemma scanstring_progress_bounded (n : nat) :
  forall s, String.length s <= n -> s <> "" -> progresses (scanstring s) s.
Proof.
  induction n as [| n IH]; intros s Hlen Hne.
  - destruct s; [contradiction | simpl in Hlen; lia].
  - assert (Hrec : forall t, String.length t < String.length s ->
                             progresses (scanstring t) s).
    { intros t Ht. destruct t as [| c t].
      - apply progresses_error.
      - apply (progresses_longer _ (String c t));
          [apply IH; [lia | discriminate] | lia]. }
    destruct s as [| c rest]; [contradiction |].
    cbn [scanstring].
    repeat match goal with
           | |- progresses (prepend _ _) _ =>
               apply progresses_prepend, Hrec; simpl; lia
           | |- progresses DecodeError _ => apply progresses_error
           | |- progresses (Scanned _ _) _ =>
               apply progresses_scanned; simpl; lia
           | |- progresses (if ?b then _ else _) _ => destruct b
           | |- progresses (match ?x with _ => _ end) _ => destruct x
           end.
Qed.

Lemma scanstring_progress (s : string) :
  progresses (scanstring s) (String dquote s).
Proof.
  destruct s as [| c s]; [apply progresses_error |].
  apply (progresses_longer _ (String c s)); [| simpl; lia].
  apply (scanstring_progress_bounded (String.length (String c s)));
    [lia | discriminate].
Qed.

Lemma digits_length (s : string) :
  String.length (snd (digits s)) <= String.length s.
Proof.
  induction s as [| c s IH]; simpl; [lia |].
  destruct (is_digit c); simpl; [| lia].
  destruct (digits s); simpl in *. lia.
Qed.

Lemma after_word_length (word s rest : string) :
  after_word word s = Some rest ->
  String.length s = String.length word + String.length rest.
Proof.
  revert s. induction word as [| a w IH]; intros s; simpl.
  - now intros [= ->].
  - destruct s as [| b s]; [discriminate |].
    destruct (Ascii.eqb a b); [| discriminate].
    intros H. simpl. now rewrite (IH _ H).
Qed.

Lemma integer_part_length (s ds rest : string) :
  integer_part s = Some (ds, rest) -> String.length rest < String.length s.
Proof.
  destruct s as [| c s]; simpl; [discriminate |].
  destruct (Ascii.eqb c "0"); [intros [= _ <-]; lia |].
  destruct (is_digit c); [| discriminate].
  pose proof (digits_length s) as H. destruct (digits s) as [d after].
  intros [= _ <-]. simpl in H. lia.
Qed.

Lemma fraction_part_length (s : string) :
  String.length (snd (fraction_part s)) <= String.length s.
Proof.
  destruct s as [| c s]; simpl; [lia |].
  destruct (Ascii.eqb c "."); simpl; [| lia].
  pose proof (digits_length s) as H. destruct (digits s) as [d after].
  simpl in H. destruct (is_empty d); simpl; lia.
Qed.

Lemma exponent_part_length (s : string) :
  String.length (snd (exponent_part s)) <= String.length s.
Proof.
  destruct s as [| c s]; simpl; [lia |].
  destruct (Ascii.eqb c "e" || Ascii.eqb c "E"); simpl; [| lia].
  destruct s as [| sg r]; simpl; [lia |].
  destruct (Ascii.eqb sg "+" || Ascii.eqb sg "-").
  - pose proof (digits_length r) as H. destruct (digits r) as [d after].
    simpl in H. destruct (is_empty d); simpl; lia.
  - pose proof (digits_length (String sg r)) as H.
    destruct (digits (String sg r)) as [d after].
    simpl in H. destruct (is_empty d); simpl; lia.
Qed.

Lemma match_number_length (s : string) (g : number_groups) (rest : string) :
  match_number s = Some (g, rest) ->
  String.length rest < String.length s.
Proof.
  unfold match_number.
  set (split := match s with
                | String c rest0 =>
                    if Ascii.eqb c "-" then (true, rest0) else (false, s)
                | EmptyString => (false, s)
                end).
  assert (Hs1 : String.length (snd split) <= String.length s).
  { subst split. destruct s as [| c s]; simpl; [lia |].
    destruct (Ascii.eqb c "-"); simpl; lia. }
  destruct split as [neg s1]. simpl in Hs1.
  destruct (integer_part s1) as [[ds r0] |] eqn:Hint; [| discriminate].
  apply integer_part_length in Hint.
  pose proof (fraction_part_length r0) as Hf.
  destruct (fraction_part r0) as [fr r1]. simpl in Hf.
  pose proof (exponent_part_length r1) as He.
  destruct (exponent_part r1) as [ex r2]. simpl in He.
  intros [= _ <-]. lia.
Qed.

Lemma number_value_progress (g : number_groups) (rest s : string) :
  String.length rest < String.length s ->
  progresses (number_value g rest) s.
Proof.
  intros H. unfold number_value.
  destruct (is_empty (frac g) && is_empty (exp g)).
  - destruct (too_many_digits (int_digits g));
      [apply progresses_digits | now apply progresses_scanned].
  - now apply progresses_scanned.
Qed.

Lemma scan_atom_progress (s : string) : progresses (scan_atom s) s.
Proof.
  unfold scan_atom.
  repeat match goal with
         | |- progresses (match after_word ?w s with _ => _ end) _ =>
             let E := fresh "E" in
             destruct (after_word w s) eqn:E;
             [apply after_word_length in E; simpl in E;
              apply progresses_scanned; lia |]
         end.
  - destruct (match_number s) as [[g rest] |] eqn:Enum.
    + apply number_value_progress. now apply match_number_length in Enum.
    + repeat match goal with
             | |- progresses (match after_word ?w s with _ => _ end) _ =>
                 let E := fresh "E" in
                 destruct (after_word w s) eqn:E;
                 [apply after_word_length in E; simpl in E;
                  apply progresses_scanned; lia |]
             end.
      apply progresses_error.
Qed.

Lemma array_loop_progress scan (Hscan : scanner_ok scan) :
  forall fuel s values,
    String.length s < fuel ->
    progresses (array_loop scan fuel s values) s.
Proof.
  induction fuel as [| fuel IH]; intros s values Hfuel; [lia |].
  cbn [array_loop].
  destruct (Hscan s) as [Hns Hlen].
  destruct (scan s) as [value rest | | | |];
    [| apply progresses_error | apply progresses_recursion
     | apply progresses_digits | contradiction].
  specialize (Hlen value rest eq_refl).
  pose proof (skip_ws_length rest) as Hws.
  destruct (skip_ws rest) as [| nextchar rest1];
    [apply progresses_error |].
  simpl in Hws.
  destruct (Ascii.eqb nextchar "]"); [apply progresses_scanned; lia |].
  destruct (Ascii.eqb nextchar ","); [| apply progresses_error].
  pose proof (skip_ws_length rest1) as Hws1.
  apply (progresses_longer _ (skip_ws rest1)); [| lia].
  apply IH; lia.
Qed.

Lemma JSONArray_progress scan (Hscan : scanner_ok scan) :
  forall fuel s c,
    String.length s < fuel ->
    progresses (JSONArray scan fuel s) (String c s).
Proof.
  intros fuel s c Hfuel. unfold JSONArray.
  pose proof (skip_ws_length s) as Hws.
  assert (Hloop : progresses (array_loop scan fuel (skip_ws s) [])
                             (String c s)).
  { apply (progresses_longer _ (skip_ws s)); [| simpl; lia].
    apply (array_loop_progress scan Hscan); lia. }
  destruct (skip_ws s) as [| nextchar rest]; [exact Hloop |].
  simpl in Hws.
  destruct (Ascii.eqb nextchar "]"); [| exact Hloop].
  apply progresses_scanned. simpl. lia.
Qed.

Lemma object_loop_progress scan (Hscan : scanner_ok scan) :
  forall fuel s pairs,
    String.length s < fuel ->
    progresses (object_loop scan fuel s pairs) (String dquote s).
Proof.
  induction fuel as [| fuel IH]; intros s pairs Hfuel; [lia |].
  cbn [object_loop].
  destruct (scanstring_progress s) as [Hns Hlen].
  destruct (scanstring s) as [key rest | | | |];
    [| apply progresses_error | apply progresses_recursion
     | apply progresses_digits | contradiction].
  specialize (Hlen key rest eq_refl). simpl in Hlen.
  pose proof (skip_ws_length rest) as Hws.
  destruct (skip_ws rest) as [| colon rest1];
    [apply progresses_error |].
  simpl in Hws.
  destruct (Ascii.eqb colon ":"); [| apply progresses_error].
  pose proof (skip_ws_length rest1) as Hws1.
  destruct (Hscan (skip_ws rest1)) as [Hns2 Hlen2].
  destruct (scan (skip_ws rest1)) as [value rest2 | | | |];
    [| apply progresses_error | apply progresses_recursion
     | apply progresses_digits | contradiction].
  specialize (Hlen2 value rest2 eq_refl).
  pose proof (skip_ws_length rest2) as Hws2.
  destruct (skip_ws rest2) as [| nextchar rest3];
    [apply progresses_error |].
  simpl in Hws2.
  destruct (Ascii.eqb nextchar "}");
    [apply progresses_scanned; simpl; lia |].
  destruct (Ascii.eqb nextchar ","); [| apply progresses_error].
  pose proof (skip_ws_length rest3) as Hws3.
  destruct (skip_ws rest3) as [| q0 rest4]; [apply progresses_error |].
  simpl in Hws3.
  destruct (Ascii.eqb q0 dquote); [| apply progresses_error].
  apply (progresses_longer _ (String dquote rest4)); [| simpl; lia].
  apply IH; lia.
Qed.

Lemma JSONObject_progress scan (Hscan : scanner_ok scan) :
  forall fuel s c,
    String.length s < fuel ->
    progresses (JSONObject scan fuel s) (String c s).
Proof.
  intros fuel s c Hfuel. unfold JSONObject.
  pose proof (skip_ws_length s) as Hws.
  destruct (skip_ws s) as [| nextchar rest]; [apply progresses_error |].
  simpl in Hws.
  destruct (Ascii.eqb nextchar "}");
    [apply progresses_scanned; simpl; lia |].
  destruct (Ascii.eqb nextchar dquote); [| apply progresses_error].
  apply (progresses_longer _ (String dquote rest)); [| simpl; lia].
  apply (object_loop_progress scan Hscan); lia.
Qed.

Lemma scan_once_progress (depth : nat) : scanner_ok (scan_once depth).
Proof.
  induction depth as [| depth IH]; intros s;
    (destruct s as [| nextchar rest]; [apply progresses_error |]);
    cbn [scan_once];
    (destruct (Ascii.eqb nextchar dquote);
     [ destruct (scanstring_progress rest) as [Hns Hl];
       destruct (scanstring rest) as [str after | | | |];
       [ apply progresses_scanned; specialize (Hl str after eq_refl);
         simpl in *; lia
       | apply progresses_error | apply progresses_recursion
       | apply progresses_digits | contradiction ]
     | ]).
  - destruct (Ascii.eqb nextchar "{"); [apply progresses_recursion |].
    destruct (Ascii.eqb nextchar "["); [apply progresses_recursion |].
    apply scan_atom_progress.
  - destruct (Ascii.eqb nextchar "{");
      [apply (JSONObject_progress _ IH); lia |].
    destruct (Ascii.eqb nextchar "[");
      [apply (JSONArray_progress _ IH); lia |].
    apply scan_atom_progress.
Qed.

(** The fuel of the loops is never used up. *)
Lemma json_loads_never_starved (s : string) :
  scan_once json_depth (skip_ws s) <> Starved.
Proof.
  apply (scan_once_progress json_depth).
Qed.

(** [json_loads] raises one of three exceptions, if any. *)
Lemma json_loads_raises (s : string) (e : exn) :
  json_loads s = Raise e ->
  e = JSONDecodeError \/ e = RecursionError \/ e = ValueError.
Proof.
  unfold json_loads.
  destruct (scan_once json_depth (skip_ws s)) as [obj rest | | | |].
  - destruct (is_empty (skip_ws rest)); [discriminate |].
    intros [= <-]. auto.
  - intros [= <-]. auto.
  - intros [= <-]. auto.
  - intros [= <-]. auto.
  - intros [= <-]. auto.
Qed.

(** Empty or white-space text is an error of the decoder. *)
Lemma json_loads_blank (s : string) :
  skip_ws s = "" -> json_loads s = Raise JSONDecodeError.
Proof.
  unfold json_loads. intros ->. now destruct json_depth.
Qed.

(** A text that opens with a brace decodes to a mapping or not at
    all. *)
Lemma object_loop_dict scan fuel s pairs obj rest :
  object_loop scan fuel s pairs = Scanned obj rest -> is_dict obj = true.
Proof.
  revert s pairs. induction fuel as [| fuel IH]; intros s pairs;
    [discriminate |].
  cbn [object_loop].
  repeat match goal with
         | |- Scanned _ _ = Scanned _ _ -> _ => now intros [= <- _]
         | |- object_loop _ _ _ _ = _ -> _ => apply IH
         | |- DecodeError = _ -> _ => discriminate
         | |- RecursionLimit = _ -> _ => discriminate
         | |- DigitLimit = _ -> _ => discriminate
         | |- Starved = _ -> _ => discriminate
         | |- (if ?b then _ else _) = _ -> _ => destruct b
         | |- match ?x with _ => _ end = _ -> _ => destruct x
         end.
Qed.

Lemma json_loads_object (s rest : string) (obj : pyval) :
  skip_ws s = String "{" rest -> json_loads s = Ok obj ->
  is_dict obj = true.
Proof.
  unfold json_loads. intros ->. destruct json_depth as [| depth];
    cbn [scan_once];
    change (Ascii.eqb "{" dquote) with false;
    change (Ascii.eqb "{" "{") with true; cbv iota; [discriminate |].
  unfold JSONObject.
  destruct (skip_ws rest) as [| nextchar rest1]; [discriminate |].
  destruct (Ascii.eqb nextchar "}").
  - destruct (is_empty (skip_ws rest1)); [| discriminate].
    now intros [= <-].
  - destruct (Ascii.eqb nextchar dquote); [| discriminate].
    destruct (object_loop _ _ rest1 []) as [v after | | | |] eqn:E;
      try discriminate.
    destruct (is_empty (skip_ws after)); [| discriminate].
    intros [= <-]. now apply object_loop_dict in E.
Qed.

End JsonFacts.

(** ** Mappings *)

Section DictFacts.

Lemma get_set_same (d : Dict.t) (k : string) (v : pyval) :
  Dict.get (Dict.set d k v) k = Some v.
Proof.
  induction d as [| [k' v'] d IH]; simpl.
  - now rewrite String.eqb_refl.
  - destruct (String.eqb k k') eqn:E; simpl; rewrite E; auto.
Qed.

Lemma set_get_id (d : Dict.t) (k : string) (v : pyval) :
  Dict.get d k = Some v -> Dict.set d k v = d.
Proof.
  induction d as [| [k' v'] d IH]; simpl; [discriminate |].
  destruct (String.eqb k k') eqn:E.
  - now intros [= ->].
  - intros H. now rewrite IH.
Qed.

Lemma dict_frame_refl key R (d : Dict.t) : Shape.dict_frame key R d d.
Proof.
  induction d; constructor; auto.
Qed.

Lemma dict_frame_set key (R : pyval -> pyval -> Prop) (d : Dict.t) v v' :
  Dict.get d key = Some v -> R v v' ->
  Shape.dict_frame key R d (Dict.set d key v').
Proof.
  intros Hget HR. induction d as [| [k x] d IH]; simpl in *; [discriminate |].
  destruct (String.eqb key k) eqn:E.
  - apply String.eqb_eq in E. subst k. injection Hget as ->.
    constructor; [simpl; auto | apply dict_frame_refl].
  - constructor; [simpl; auto | now apply IH].
Qed.

Lemma get_set_other (d : Dict.t) (k k' : string) (v : pyval) :
  k <> k' -> Dict.get (Dict.set d k' v) k = Dict.get d k.
Proof.
  intros Hne. induction d as [| [k0 v0] d IH]; simpl.
  - destruct (String.eqb k k') eqn:E; [| reflexivity].
    apply String.eqb_eq in E. contradiction.
  - destruct (String.eqb k' k0) eqn:E; simpl.
    + apply String.eqb_eq in E. subst k0.
      destruct (String.eqb k k') eqn:E'; [| reflexivity].
      apply String.eqb_eq in E'. contradiction.
    + now rewrite IH.
Qed.

End DictFacts.

(** ** The pass against its functional reading *)

Section Refinement.

Import DeepSeekChatOpenAI Shape.

Context {py : Interpreter}.

Lemma for_each_map {A : Type} (body : A -> result A) (f : A -> A)
    (items : list A) :
  (forall item, In item items -> body item = Ok (f item)) ->
  for_each body items = Ok (map f items).
Proof.
  induction items as [| item rest IH]; intros H; simpl; [reflexivity |].
  rewrite (H item (or_introl eq_refl)). simpl.
  rewrite IH by (intros; apply H; now right). reflexivity.
Qed.

Lemma for_each_same {A : Type} (body : A -> result A) (items : list A) :
  (forall item, In item items -> body item = Ok item) ->
  for_each body items = Ok items.
Proof.
  intros H. rewrite (for_each_map body (fun item => item)) by exact H.
  now rewrite map_id.
Qed.

Lemma for_each_ok {A : Type} (body : A -> result A) (f : A -> A)
    (items items' : list A) :
  (forall item item', In item items -> body item = Ok item' ->
                      item' = f item) ->
  for_each body items = Ok items' -> items' = map f items.
Proof.
  revert items'. induction items as [| item rest IH]; intros items' H; simpl.
  - now intros [= <-].
  - destruct (body item) as [item' |] eqn:Hb; simpl; [| discriminate].
    destruct (for_each body rest) as [rest' |] eqn:Hr; simpl;
      [| discriminate].
    intros [= <-]. f_equal.
    + apply H; [now left | exact Hb].
    + apply IH; [| reflexivity]. intros x x' Hin. apply H. now right.
Qed.

Lemma for_each_raise {A : Type} (body : A -> result A) (items : list A) e :
  for_each body items = Raise e ->
  exists item, In item items /\ body item = Raise e.
Proof.
  induction items as [| item rest IH]; simpl; [discriminate |].
  destruct (body item) as [item' |] eqn:Hb; simpl.
  - destruct (for_each body rest) as [rest' |]; simpl; [discriminate |].
    intros [= <-]. destruct (IH eq_refl) as (x & Hin & Hx).
    exists x. auto.
  - intros [= <-]. exists item. auto.
Qed.

(** *** One tool call *)

(** What the loop body does with a tool call, whatever its shape: it
    returns the functional reading, or it raises [TypeError] on a tool
    call that is not shaped as one, or it lets through what
    [json.loads] raised other than [JSONDecodeError]. *)
Lemma generate_tool_call_outcome (tool_call : pyval) :
  match generate_tool_call tool_call with
  | Ok tool_call' => tool_call' = patched_tool_call tool_call
  | Raise e =>
      (e = TypeError /\ wf_tool_call tool_call = false) \/
      (exists text,
          arguments_of tool_call = Some (VStr text) /\
          Json.json_loads text = Raise e /\ e <> JSONDecodeError)
  end.
Proof.
  unfold generate_tool_call.
  destruct tool_call as [| | | | s | items | items]; simpl; auto.
  - destruct (Str.contains "function" s); simpl; auto.
  - destruct (existsb _ items); simpl; auto.
  - unfold Dict.mem.
    destruct (Dict.get items "function") as [function |] eqn:Hf; simpl;
      [| reflexivity].
    destruct function as [| | | | s | l | fd]; simpl; auto.
    + destruct (Str.contains "arguments" s); simpl; auto.
    + destruct (existsb _ l); simpl; auto.
    + unfold Dict.mem.
      destruct (Dict.get fd "arguments") as [args |] eqn:Ha; simpl;
        [| reflexivity].
      assert (Hsame : VDict items
                      = VDict (Dict.set items "function"
                                 (VDict (Dict.set fd "arguments" args)))).
      { now rewrite (set_get_id fd _ _ Ha), (set_get_id items _ _ Hf). }
      destruct args as [| | | | text | |]; try exact Hsame.
      simpl. destruct (Json.json_loads text) as [parsed | e] eqn:E;
        [reflexivity |].
      destruct e; try exact Hsame;
        right; exists text;
        (split; [unfold arguments_of; now rewrite ?Hf, ?Ha
                | split; [exact E | discriminate]]).
Qed.

Lemma generate_tool_call_ok (tool_call tool_call' : pyval) :
  generate_tool_call tool_call = Ok tool_call' ->
  tool_call' = patched_tool_call tool_call.
Proof.
  intros H. pose proof (generate_tool_call_outcome tool_call) as Ho.
  now rewrite H in Ho.
Qed.

Lemma generate_tool_call_raise (tool_call : pyval) e :
  generate_tool_call tool_call = Raise e ->
  (e = TypeError /\ wf_tool_call tool_call = false) \/
  (exists text,
      arguments_of tool_call = Some (VStr text) /\
      Json.json_loads text = Raise e /\ e <> JSONDecodeError).
Proof.
  intros H. pose proof (generate_tool_call_outcome tool_call) as Ho.
  now rewrite H in Ho.
Qed.

Lemma limit_free_raise (text : string) e :
  limit_free (VStr text) = true ->
  Json.json_loads text = Raise e -> e = JSONDecodeError.
Proof.
  simpl. intros H E. rewrite E in H. now destruct e.
Qed.

Lemma generate_tool_call_patched (tool_call : pyval) :
  wf_tool_call tool_call = true ->
  (forall args, arguments_of tool_call = Some args ->
                limit_free args = true) ->
  generate_tool_call tool_call = Ok (patched_tool_call tool_call).
Proof.
  intros Hwf Hfree.
  destruct (generate_tool_call tool_call) as [tc' | e] eqn:H.
  - f_equal. now apply generate_tool_call_ok.
  - apply generate_tool_call_raise in H.
    destruct H as [[_ H] | (text & Ha & Hl & Hne)]; [congruence |].
    apply (limit_free_raise text e) in Hl; [contradiction |].
    now apply Hfree.
Qed.

Lemma generate_tool_call_limit (tool_call : pyval) (text : string) e :
  wf_tool_call tool_call = true ->
  arguments_of tool_call = Some (VStr text) ->
  Json.json_loads text = Raise e ->
  e <> JSONDecodeError ->
  generate_tool_call tool_call = Raise e.
Proof.
  intros Hwf Ha Hl Hne. unfold generate_tool_call.
  destruct tool_call as [| | | | | | items]; try discriminate.
  simpl in Ha |- *. unfold Dict.mem.
  destruct (Dict.get items "function") as [function |]; [| discriminate].
  destruct function as [| | | | | | fd]; try discriminate.
  simpl. unfold Dict.mem. rewrite Ha. simpl. rewrite Hl.
  now destruct e.
Qed.

(** *** One generation entry *)

Lemma in_arguments_list (tool_calls : list pyval) (tc args : pyval) :
  In tc tool_calls -> arguments_of tc = Some args ->
  In args (arguments_list tool_calls).
Proof.
  intros Hin Ha. unfold arguments_list. apply in_flat_map.
  exists tc. split; [exact Hin |]. rewrite Ha. now left.
Qed.

Lemma generate_gen_ok (gen gen' : Generation) :
  generate_gen gen = Ok gen' -> gen' = patched_gen gen.
Proof.
  unfold generate_gen, patched_gen.
  destruct (message gen) as [msg |]; [| now intros [= <-]].
  destruct (additional_kwargs msg) as [kwargs |]; [| now intros [= <-]].
  destruct (Dict.get kwargs "tool_calls") as [tool_calls |];
    [| now intros [= <-]].
  destruct (Py.truthy tool_calls); [| now intros [= <-]].
  destruct tool_calls as [| | | | s | items | items]; simpl;
    try discriminate.
  - destruct (for_each generate_tool_call (Py.chars s)); simpl;
      [now intros [= <-] | discriminate].
  - destruct (for_each generate_tool_call items) as [items' |] eqn:E;
      simpl; [| discriminate].
    intros [= <-]. do 6 f_equal.
    apply (for_each_ok _ _ _ _ (fun x x' _ => generate_tool_call_ok x x') E).
  - destruct (for_each generate_tool_call _); simpl;
      [now intros [= <-] | discriminate].
Qed.

Lemma generate_gen_raise (gen : Generation) e :
  generate_gen gen = Raise e ->
  (e = TypeError /\ wf_gen gen = false) \/
  (exists tool_call text,
      In tool_call (tool_calls_of_gen gen) /\
      arguments_of tool_call = Some (VStr text) /\
      Json.json_loads text = Raise e /\ e <> JSONDecodeError).
Proof.
  unfold generate_gen, wf_gen, wf_message, tool_calls_of_gen.
  destruct (message gen) as [msg |]; [| discriminate].
  destruct (additional_kwargs msg) as [kwargs |]; [| discriminate].
  destruct (Dict.get kwargs "tool_calls") as [tool_calls |];
    [| discriminate].
  destruct tool_calls as [| | | | s | items | items];
    try discriminate;
    (destruct (Py.truthy _); [| discriminate]); simpl;
    try (intros [= <-]; now left).
  - destruct (for_each generate_tool_call (Py.chars s)) eqn:E; simpl;
      [discriminate |].
    intros [= <-]. apply for_each_raise in E.
    destruct E as (x & Hin & Hx). apply generate_tool_call_raise in Hx.
    destruct Hx as [[-> _] | (text & Ha & _)]; [now left |].
    exfalso. clear - Hin Ha. induction s as [| c s IH]; simpl in Hin;
      [contradiction |].
    destruct Hin as [<- | Hin]; [discriminate | auto].
  - destruct (for_each generate_tool_call items) eqn:E; simpl;
      [discriminate |].
    intros [= <-]. apply for_each_raise in E.
    destruct E as (x & Hin & Hx). apply generate_tool_call_raise in Hx.
    destruct Hx as [[-> Hx] | (text & Ha & Hl & Hne)].
    + left. split; [reflexivity |].
      destruct (forallb wf_tool_call items) eqn:Hall; [| reflexivity].
      rewrite forallb_forall in Hall. rewrite (Hall x Hin) in Hx.
      discriminate.
    + right. now exists x, text.
  - destruct (for_each generate_tool_call _) eqn:E; simpl;
      [discriminate |].
    intros [= <-]. apply for_each_raise in E.
    destruct E as (x & Hin & Hx). apply generate_tool_call_raise in Hx.
    destruct Hx as [[-> _] | (text & Ha & _)]; [now left |].
    exfalso. apply in_map_iff in Hin. destruct Hin as (kv & <- & _).
    discriminate.
Qed.

Lemma generate_gen_patched (gen : Generation) :
  wf_gen gen = true ->
  (forall args, In args (arguments_list (tool_calls_of_gen gen)) ->
                limit_free args = true) ->
  generate_gen gen = Ok (patched_gen gen).
Proof.
  intros Hwf Hfree.
  destruct (generate_gen gen) as [gen' | e] eqn:H.
  - f_equal. now apply generate_gen_ok.
  - apply generate_gen_raise in H.
    destruct H as [[_ H] | (tc & text & Hin & Ha & Hl & Hne)];
      [congruence |].
    apply (limit_free_raise text e) in Hl; [contradiction |].
    apply Hfree. now apply (in_arguments_list _ tc).
Qed.

(** *** One item of [generations], and the result *)

Lemma generate_batch_single (chat : Generation) :
  generate_batch (Single chat) = Ok (Single chat).
Proof.
  unfold generate_batch. now rewrite for_each_same.
Qed.

Lemma generate_batch_ok (generation generation' : batch) :
  generate_batch generation = Ok generation' ->
  generation' = patched_batch generation.
Proof.
  destruct generation as [gens | chat].
  - simpl. destruct (for_each generate_gen gens) as [gens' |] eqn:E; simpl;
      [| discriminate].
    intros [= <-]. f_equal.
    apply (for_each_ok _ _ _ _ (fun x x' _ => generate_gen_ok x x') E).
  - rewrite generate_batch_single. now intros [= <-].
Qed.

Lemma in_reached_arguments (res : GenerationResult) generation gen tc args :
  In generation (generations res) ->
  In gen (reached_gens generation) ->
  In tc (tool_calls_of_gen gen) ->
  arguments_of tc = Some args ->
  In args (reached_arguments res).
Proof.
  intros Hb Hg Htc Ha. unfold reached_arguments.
  apply (in_arguments_list _ tc); [| exact Ha].
  unfold reached_tool_calls. apply in_flat_map. exists generation.
  split; [exact Hb |]. apply in_flat_map. now exists gen.
Qed.

Lemma generate_patch_ok (res res' : GenerationResult) :
  generate_patch res = Ok res' -> res' = patched_result res.
Proof.
  unfold generate_patch, patched_result.
  destruct (for_each generate_batch (generations res))
    as [gens' |] eqn:E; simpl; [| discriminate].
  intros [= <-]. f_equal.
  apply (for_each_ok _ _ _ _ (fun x x' _ => generate_batch_ok x x') E).
Qed.

Lemma generate_patch_raise (res : GenerationResult) e :
  generate_patch res = Raise e ->
  (e = TypeError /\ wf_result res = false) \/
  (exists text,
      In (VStr text) (reached_arguments res) /\
      Json.json_loads text = Raise e /\ e <> JSONDecodeError).
Proof.
  unfold generate_patch.
  destruct (for_each generate_batch (generations res)) eqn:E; simpl;
    [discriminate |].
  intros [= <-]. apply for_each_raise in E.
  destruct E as (generation & Hb & Hx).
  destruct generation as [gens | chat];
    [| rewrite generate_batch_single in Hx; discriminate].
  simpl in Hx.
  destruct (for_each generate_gen gens) eqn:Eg; simpl in Hx;
    [discriminate |].
  injection Hx as <-. apply for_each_raise in Eg.
  destruct Eg as (gen & Hg & Hx). apply generate_gen_raise in Hx.
  destruct Hx as [[-> Hx] | (tc & text & Htc & Ha & Hl & Hne)].
  - left. split; [reflexivity |]. unfold wf_result.
    destruct (forallb _ (generations res)) eqn:Hall; [| reflexivity].
    rewrite forallb_forall in Hall. specialize (Hall _ Hb). simpl in Hall.
    rewrite forallb_forall in Hall. rewrite (Hall gen Hg) in Hx.
    discriminate.
  - right. exists text. split; [| now split].
    now apply (in_reached_arguments res (Batch gens) gen tc).
Qed.

Lemma generate_patch_patched (res : GenerationResult) :
  wf_result res = true ->
  forallb limit_free (reached_arguments res) = true ->
  generate_patch res = Ok (patched_result res).
Proof.
  intros Hwf Hfree.
  destruct (generate_patch res) as [res' | e] eqn:H.
  - f_equal. now apply generate_patch_ok.
  - apply generate_patch_raise in H.
    destruct H as [[_ H] | (text & Hin & Hl & Hne)]; [congruence |].
    rewrite forallb_forall in Hfree.
    apply (limit_free_raise text e) in Hl; [contradiction |].
    now apply Hfree.
Qed.

(** On a [ChatResult] the loops reach no generation entry. *)
Lemma generate_patch_chat (res : GenerationResult) :
  is_chat_result res = true -> generate_patch res = Ok res.
Proof.
  unfold is_chat_result, generate_patch. intros H.
  rewrite for_each_same; [now destruct res |].
  intros generation Hin. rewrite forallb_forall in H.
  specialize (H generation Hin).
  destruct generation as [gens | chat]; [discriminate |].
  apply generate_batch_single.
Qed.

(** The two translations of the loops are one function. *)
Lemma agenerate_patch_same (res : GenerationResult) :
  agenerate_patch res = generate_patch res.
Proof. reflexivity. Qed.

End Refinement.

(** ** Fixed points and the frame of the functional reading *)

Section PatchedFacts.

Import DeepSeekChatOpenAI Shape Observe.

Context {py : Interpreter}.

Lemma arguments_of_patched (tool_call : pyval) :
  arguments_of (patched_tool_call tool_call)
  = option_map decoded (arguments_of tool_call).
Proof.
  destruct tool_call as [| | | | | | items]; try reflexivity. simpl.
  destruct (Dict.get items "function") as [function |] eqn:Hf;
    [| simpl; now rewrite Hf].
  destruct function as [| | | | | | fd]; try (simpl; now rewrite Hf).
  destruct (Dict.get fd "arguments") as [args |] eqn:Ha.
  - simpl. now rewrite !get_set_same.
  - simpl. now rewrite Hf, Ha.
Qed.

Lemma arguments_list_patched (tool_calls : list pyval) :
  arguments_list (map patched_tool_call tool_calls)
  = map decoded (arguments_list tool_calls).
Proof.
  unfold arguments_list.
  induction tool_calls as [| tc rest IH]; simpl; [reflexivity |].
  rewrite IH, map_app, arguments_of_patched.
  now destruct (arguments_of tc).
Qed.

Lemma tool_calls_of_gen_patched (gen : Generation) :
  tool_calls_of_gen (patched_gen gen)
  = map patched_tool_call (tool_calls_of_gen gen).
Proof.
  unfold tool_calls_of_gen, patched_gen.
  destruct (message gen) as [msg |] eqn:Hm; [| now rewrite Hm].
  destruct (additional_kwargs msg) as [kwargs |] eqn:Hk;
    [| now rewrite Hm, Hk].
  destruct (Dict.get kwargs "tool_calls") as [tool_calls |] eqn:Ht;
    [| now rewrite Hm, Hk, Ht].
  destruct (Py.truthy tool_calls) eqn:Htruthy.
  - simpl. rewrite get_set_same. now destruct tool_calls.
  - rewrite Hm, Hk, Ht.
    destruct tool_calls as [| | | | | [| item items] |];
      try reflexivity; discriminate.
Qed.

Lemma flat_map_map_commute {A B : Type} (g : A -> A) (h : B -> B)
    (f : A -> list B) (l : list A) :
  (forall x, f (g x) = map h (f x)) ->
  flat_map f (map g l) = map h (flat_map f l).
Proof.
  intros H. induction l as [| x l IH]; simpl; [reflexivity |].
  now rewrite IH, H, map_app.
Qed.

Lemma reached_tool_calls_patched (res : GenerationResult) :
  reached_tool_calls (patched_result res)
  = map patched_tool_call (reached_tool_calls res).
Proof.
  unfold reached_tool_calls, patched_result. simpl.
  apply flat_map_map_commute. intros [gens | chat]; [| reflexivity].
  simpl. apply flat_map_map_commute. apply tool_calls_of_gen_patched.
Qed.

Lemma reached_arguments_patched (res : GenerationResult) :
  reached_arguments (patched_result res)
  = map decoded (reached_arguments res).
Proof.
  unfold reached_arguments.
  now rewrite reached_tool_calls_patched, arguments_list_patched.
Qed.

(** What the pass reaches is among what the result holds. *)
Lemma reached_in_all (res : GenerationResult) (args : pyval) :
  In args (reached_arguments res) -> In args (arguments_in res).
Proof.
  unfold reached_arguments, arguments_in, arguments_list.
  rewrite !in_flat_map. intros (tc & Htc & Ha). exists tc.
  split; [| exact Ha]. unfold reached_tool_calls, tool_calls_of in *.
  rewrite in_flat_map in *. destruct Htc as (generation & Hb & Hg).
  exists generation. split; [exact Hb |].
  destruct generation as [gens | chat]; [exact Hg | contradiction].
Qed.

Lemma not_str_decoded (args : pyval) :
  negb (is_str args) = true -> decoded args = args /\ limit_free args = true.
Proof.
  destruct args; simpl; auto; discriminate.
Qed.

Lemma patched_tool_call_id (tool_call : pyval) :
  (forall args, arguments_of tool_call = Some args -> decoded args = args) ->
  patched_tool_call tool_call = tool_call.
Proof.
  destruct tool_call as [| | | | | | items]; try reflexivity. simpl.
  destruct (Dict.get items "function") as [function |] eqn:Hf;
    [| reflexivity].
  destruct function as [| | | | | | fd]; try reflexivity.
  destruct (Dict.get fd "arguments") as [args |] eqn:Ha; [| reflexivity].
  intros H. rewrite (H args eq_refl).
  now rewrite (set_get_id fd _ _ Ha), (set_get_id items _ _ Hf).
Qed.

Lemma map_fixed {A : Type} (f : A -> A) (l : list A) :
  (forall x, In x l -> f x = x) -> map f l = l.
Proof.
  induction l as [| x l IH]; intros H; simpl; [reflexivity |].
  rewrite (H x (or_introl eq_refl)), IH; [reflexivity |].
  intros; apply H; now right.
Qed.

Lemma patched_gen_id (gen : Generation) :
  (forall tc, In tc (tool_calls_of_gen gen) -> patched_tool_call tc = tc) ->
  patched_gen gen = gen.
Proof.
  unfold tool_calls_of_gen, patched_gen.
  destruct gen as [txt info [msg |]]; simpl; [| reflexivity].
  destruct msg as [c [kwargs |] meta id]; simpl; [| reflexivity].
  destruct (Dict.get kwargs "tool_calls") as [tool_calls |] eqn:Ht;
    [| reflexivity].
  destruct (Py.truthy tool_calls); [| reflexivity].
  intros H.
  assert (Hsame : patched_tool_calls tool_calls = tool_calls).
  { destruct tool_calls; try reflexivity. simpl. now rewrite map_fixed. }
  now rewrite Hsame, (set_get_id kwargs _ _ Ht).
Qed.

Lemma patched_result_id (res : GenerationResult) :
  (forall args, In args (reached_arguments res) -> decoded args = args) ->
  patched_result res = res.
Proof.
  intros H.
  unfold patched_result. destruct res as [gens out]. simpl. f_equal.
  apply map_fixed. intros [batch | chat] Hb; [| reflexivity].
  simpl. f_equal.
  apply map_fixed. intros gen Hg.
  apply patched_gen_id. intros tc Htc.
  apply patched_tool_call_id. intros args Ha.
  apply H.
  now apply (in_reached_arguments (mkResult gens out) (Batch batch) gen tc).
Qed.

(** *** The frame *)

Lemma Forall2_map_right {A : Type} (R : A -> A -> Prop) (f : A -> A)
    (l : list A) :
  (forall x, R x (f x)) -> Forall2 R l (map f l).
Proof.
  intros H. induction l; simpl; constructor; auto.
Qed.

Lemma Forall2_flat_map {A B : Type} (R : B -> B -> Prop)
    (f : A -> list B) (l l' : list A) :
  Forall2 (fun x x' => Forall2 R (f x) (f x')) l l' ->
  Forall2 R (flat_map f l) (flat_map f l').
Proof.
  induction 1; simpl; [constructor |]. now apply Forall2_app.
Qed.

Lemma args_frame_decoded (args : pyval) : args_frame args (decoded args).
Proof.
  destruct args as [| | | | text | |]; try (now left). simpl.
  destruct (Json.json_loads text) as [parsed |] eqn:E; [| now left].
  right. now exists text.
Qed.

Lemma tool_call_frame_patched (tool_call : pyval) :
  tool_call_frame tool_call (patched_tool_call tool_call).
Proof.
  destruct tool_call as [| | | | | | items]; try (now left). simpl.
  destruct (Dict.get items "function") as [function |] eqn:Hf;
    [| now left].
  destruct function as [| | | | | | fd]; try (now left).
  destruct (Dict.get fd "arguments") as [args |] eqn:Ha; [| now left].
  right. eexists _, _. split; [reflexivity |]. split; [reflexivity |].
  apply (dict_frame_set _ _ _ _ _ Hf).
  right. eexists _, _. split; [reflexivity |]. split; [reflexivity |].
  apply (dict_frame_set _ _ _ _ _ Ha), args_frame_decoded.
Qed.

Lemma tool_calls_frame_patched (tool_calls : pyval) :
  tool_calls_frame tool_calls (patched_tool_calls tool_calls).
Proof.
  destruct tool_calls as [| | | | | items |]; try (now left).
  right. eexists _, _. split; [reflexivity |]. split; [reflexivity |].
  apply Forall2_map_right, tool_call_frame_patched.
Qed.

Lemma patched_gen_no_tool_calls (gen : Generation) :
  no_tool_calls gen = true -> patched_gen gen = gen.
Proof.
  unfold no_tool_calls, patched_gen.
  destruct (message gen) as [msg |]; [| reflexivity].
  destruct (additional_kwargs msg) as [kwargs |]; [| reflexivity].
  destruct (Dict.get kwargs "tool_calls") as [tool_calls |]; [| reflexivity].
  destruct (Py.truthy tool_calls); [discriminate | reflexivity].
Qed.

Lemma gen_frame_patched (gen : Generation) : gen_frame gen (patched_gen gen).
Proof.
  unfold gen_frame.
  split; [| split; [| split; [| apply patched_gen_no_tool_calls]]];
    unfold patched_gen; destruct gen as [txt info [msg |]]; simpl;
    try reflexivity; try exact I;
    destruct msg as [c [kwargs |] meta id]; simpl;
    try reflexivity; try (repeat split; exact I);
    destruct (Dict.get kwargs "tool_calls") as [tool_calls |] eqn:Ht;
    try destruct (Py.truthy tool_calls); simpl;
    try reflexivity; try (repeat split; apply dict_frame_refl).
  repeat split.
  apply (dict_frame_set _ _ _ _ _ Ht), tool_calls_frame_patched.
Qed.

Lemma batch_frame_patched (generation : batch) :
  batch_frame generation (patched_batch generation).
Proof.
  destruct generation as [gens | chat]; simpl; [| reflexivity].
  apply Forall2_map_right, gen_frame_patched.
Qed.

Lemma result_frame_patched (res : GenerationResult) :
  result_frame res (patched_result res).
Proof.
  split; [reflexivity |]. simpl.
  apply Forall2_map_right, batch_frame_patched.
Qed.

(** *** Reading entries back *)

Lemma entry_patched (tool_call : pyval) (key : string) :
  key <> "function" ->
  entry (patched_tool_call tool_call) key = entry tool_call key.
Proof.
  intros Hne. destruct tool_call as [| | | | | | items]; try reflexivity.
  simpl.
  destruct (Dict.get items "function") as [function |]; [| reflexivity].
  destruct function as [| | | | | | fd]; try reflexivity.
  destruct (Dict.get fd "arguments"); [| reflexivity].
  simpl. now apply get_set_other.
Qed.

Lemma function_entry_patched (tool_call : pyval) (key : string) :
  key <> "arguments" ->
  function_entry (patched_tool_call tool_call) key
  = function_entry tool_call key.
Proof.
  intros Hne. destruct tool_call as [| | | | | | items]; try reflexivity.
  unfold function_entry. simpl.
  destruct (Dict.get items "function") as [function |] eqn:Hf;
    [| simpl; now rewrite Hf].
  destruct function as [| | | | | | fd]; try (simpl; now rewrite Hf).
  destruct (Dict.get fd "arguments"); [| simpl; now rewrite Hf].
  simpl. rewrite get_set_same. simpl. now apply get_set_other.
Qed.

Lemma kwargs_of_patched (gen : Generation) (key : string) :
  key <> "tool_calls" ->
  Dict.get (kwargs_of (patched_gen gen)) key = Dict.get (kwargs_of gen) key.
Proof.
  intros Hne. unfold kwargs_of, patched_gen.
  destruct (message gen) as [msg |] eqn:Hm; [| now rewrite Hm].
  destruct (additional_kwargs msg) as [kwargs |] eqn:Hk;
    [| now rewrite Hm, Hk].
  destruct (Dict.get kwargs "tool_calls") as [tool_calls |];
    [| now rewrite Hm, Hk].
  destruct (Py.truthy tool_calls); [| now rewrite Hm, Hk].
  simpl. now apply get_set_other.
Qed.

(** *** The pass, whatever it is given *)

(** An arguments text on which [json.loads] raises past line 39. *)
Lemma reached_limit (res : GenerationResult) (text : string) e :
  In (VStr text) (reached_arguments res) ->
  Json.json_loads text = Raise e -> e <> JSONDecodeError ->
  (e = RecursionError \/ e = ValueError) /\
  forallb limit_free (reached_arguments res) = false.
Proof.
  intros Hin Hl Hne. split.
  - destruct (json_loads_raises _ _ Hl) as [-> | [-> | ->]]; auto.
    contradiction.
  - destruct (forallb limit_free (reached_arguments res)) eqn:Hall;
      [| reflexivity].
    rewrite forallb_forall in Hall. specialize (Hall _ Hin).
    now apply (limit_free_raise text e) in Hall.
Qed.

(** A pass that raises on a result shaped as the data model says has
    met a limit of the interpreter. *)
Lemma generate_patch_limit (res : GenerationResult) e :
  wf_result res = true ->
  generate_patch res = Raise e -> limit_raised res.
Proof.
  intros Hwf H. exists e. split; [exact H |].
  apply generate_patch_raise in H.
  destruct H as [[_ H] | (text & Hin & Hl & Hne)]; [congruence |].
  now apply (reached_limit res text).
Qed.

(** The override in front of a base call that keeps its contract. *)
Lemma generate_returns_base (base : BaseClient) messages stop kwargs :
  _generate messages stop kwargs = base_generate messages stop kwargs.
Proof.
  unfold _generate.
  pose proof (base_generate_chat messages stop kwargs) as Hc.
  destruct (base_generate messages stop kwargs) as [res | e]; simpl;
    [| reflexivity].
  now apply generate_patch_chat.
Qed.

Lemma agenerate_returns_base (base : BaseClient) messages stop kwargs :
  _agenerate messages stop kwargs = base_agenerate messages stop kwargs.
Proof.
  unfold _agenerate.
  pose proof (base_agenerate_chat messages stop kwargs) as Hc.
  destruct (base_agenerate messages stop kwargs) as [res | e]; simpl;
    [| reflexivity].
  rewrite agenerate_patch_same. now apply generate_patch_chat.
Qed.

End PatchedFacts.

(** ** The patching pass *)

Section PatchClaims.

Import DeepSeekChatOpenAI Shape.

(** The pass on the sample result in the layout the loops were written
    for: the text of an object is decoded, the malformed text stays,
    the mapping stays, and so do the generations without tool calls. *)
Example generate_patch_mixed :
  generate_patch (py := cpython) Samples.mixed = Ok Samples.mixed_patched.
Proof. vm_compute. reflexivity. Qed.

Example json_loads_escapes :
  Json.json_loads (py := cpython) (Json.q "['é\n', '😀', 1.5e-3, -12]")
  = Ok (VList [VStr (String (ascii_of_nat 195)
                       (String (ascii_of_nat 169)
                          (String (ascii_of_nat 10) "")));
               VStr "😀"; VFloat "1.5e-3"; VInt (-12)]).
Proof. vm_compute. reflexivity. Qed.

(** The limits of the interpreter: 4300 digits are an integer, 4301
    are a [ValueError]; 1000 opening brackets are a malformed text,
    1001 are a [RecursionError]. *)
Example json_loads_limits :
  (exists n, Json.json_loads (py := cpython) (Json.repeat_char "1" 4300)
             = Ok (VInt n)) /\
  Json.json_loads (py := cpython) (Json.repeat_char "1" 4301)
  = Raise ValueError /\
  Json.json_loads (py := cpython) (Json.repeat_char "[" 1000)
  = Raise JSONDecodeError /\
  Json.json_loads (py := cpython) Observe.deep_text = Raise RecursionError.
Proof.
  split; [eexists; vm_compute; reflexivity |].
  vm_compute. repeat split.
Qed.

(** C2.  Against the claim: behind a base client that answers with a
    [ChatResult], both entry points hand the caller the result as it
    came.  The first arguments payload is still the string the
    endpoint sent, although that string is the JSON text of a
    mapping. *)
Theorem raw_string_delivered :
  _generate (py := cpython) (base := Samples.stub_client) [] None []
  = Ok Samples.chat_mixed /\
  _agenerate (py := cpython) (base := Samples.stub_client) [] None []
  = Ok Samples.chat_mixed /\
  arguments_in Samples.chat_mixed
  = [VStr Samples.xy_text; VStr "not-json"; Samples.xy_value] /\
  Json.json_loads (py := cpython) Samples.xy_text = Ok Samples.xy_value.
Proof. vm_compute. repeat split. Qed.

(** C3.  Against the claim, twice.  On a [ChatResult] the tool call
    beside the malformed one is not patched: its arguments stay the
    text they were.  In the layout the loops were written for, a text
    that fails to parse by running into the nesting limit raises
    [RecursionError] out of both passes, and the tool call beside it
    is never reached. *)
Theorem parse_failure_outcomes :
  (exists res',
      generate_patch (py := cpython) Samples.chat_mixed = Ok res' /\
      arguments_in res'
      = [VStr Samples.xy_text; VStr "not-json"; Samples.xy_value]) /\
  Json.json_loads (py := cpython) Observe.deep_text = Raise RecursionError /\
  wf_result Observe.deep_result = true /\
  generate_patch (py := cpython) Observe.deep_result = Raise RecursionError /\
  agenerate_patch (py := cpython) Observe.deep_result = Raise RecursionError.
Proof.
  split; [exists Samples.chat_mixed |]; vm_compute; repeat split.
Qed.

(** C4.  Against the claim: both passes return every [ChatResult] as
    they were given it, so no arguments string in it is replaced by
    its decoding. *)
Theorem chat_result_returned_unpatched :
  forall (py : Interpreter) res,
    is_chat_result res = true ->
    generate_patch res = Ok res /\ agenerate_patch res = Ok res.
Proof.
  intros py res H.
  split; [| change (generate_patch res = Ok res)];
    now apply generate_patch_chat.
Qed.

Lemma chat_result_returned_unpatched_witness :
  generate_patch (py := cpython) Samples.chat_mixed = Ok Samples.chat_mixed /\
  agenerate_patch (py := cpython) Samples.chat_mixed = Ok Samples.chat_mixed.
Proof.
  exact (chat_result_returned_unpatched cpython Samples.chat_mixed eq_refl).
Defined.

(** C5.  Over a result shaped as the data model says in which no
    arguments value is a string, the pass returns the result it was
    given, and two passes in a row return what one pass returns. *)
Theorem patch_idempotent_on_structured :
  forall (py : Interpreter) res,
    wf_result res = true ->
    forallb (fun args => negb (is_str args)) (arguments_in res) = true ->
    generate_patch res = Ok res /\
    bind (generate_patch res) generate_patch = generate_patch res.
Proof.
  intros py res Hwf Hall. rewrite forallb_forall in Hall.
  assert (H : generate_patch res = Ok res).
  { rewrite generate_patch_patched.
    - f_equal. apply patched_result_id. intros args Hin.
      now apply not_str_decoded, Hall, reached_in_all.
    - exact Hwf.
    - apply forallb_forall. intros args Hin.
      now apply not_str_decoded, Hall, reached_in_all. }
  split; [exact H |]. rewrite H. simpl. exact H.
Qed.

Lemma patch_idempotent_on_structured_witness :
  generate_patch (py := cpython) Samples.structured = Ok Samples.structured /\
  bind (generate_patch (py := cpython) Samples.structured)
       (generate_patch (py := cpython))
  = generate_patch (py := cpython) Samples.structured.
Proof.
  exact (patch_idempotent_on_structured cpython Samples.structured
           eq_refl eq_refl).
Defined.

(** C6.  Over a result shaped as the data model says the pass returns
    a result within the frame of the one it was given: same
    [llm_output], same [text], [generation_info], [content],
    [response_metadata] and [id], the same keys in the same order in
    every mapping, equal values everywhere but [arguments] strings
    replaced by their decoding, and a generation whose [tool_calls] is
    absent or empty returned equal.  The one other outcome is that
    [json.loads] met a limit of the interpreter, and then nothing is
    returned. *)
Theorem patch_frame :
  forall (py : Interpreter) res,
    wf_result res = true ->
    (exists res',
        generate_patch res = Ok res' /\ result_frame res res') \/
    limit_raised res.
Proof.
  intros py res Hwf.
  destruct (generate_patch res) as [res' | e] eqn:H.
  - left. exists res'. split; [reflexivity |].
    apply generate_patch_ok in H. subst res'. apply result_frame_patched.
  - right. now apply (generate_patch_limit res e).
Qed.

Lemma patch_frame_witness :
  exists res',
    generate_patch (py := cpython) Samples.mixed = Ok res' /\
    result_frame (py := cpython) Samples.mixed res'.
Proof.
  destruct (patch_frame cpython Samples.mixed eq_refl)
    as [H | (e & H & _)]; [exact H |].
  vm_compute in H. discriminate H.
Defined.

End PatchClaims.

(** ** The two entry points *)

Section EntryPoints.

Import DeepSeekChatOpenAI.

(** C7.  [_generate] and [_agenerate] put the result of their base call
    through the same pass: on every Generation Result the two passes
    return the same value, and each entry point is its base call
    followed by that pass. *)
Theorem generate_agenerate_same_patch :
  forall (py : Interpreter) (base : BaseClient) messages stop kwargs,
    (forall res, agenerate_patch res = generate_patch res) /\
    _generate messages stop kwargs
    = bind (base_generate messages stop kwargs) generate_patch /\
    _agenerate messages stop kwargs
    = bind (base_agenerate messages stop kwargs) generate_patch.
Proof.
  intros. repeat split.
Qed.

(** C10.  [_create_message_dicts] returns what the method of the base
    class returns, for every list of messages and every [stop]. *)
Theorem create_message_dicts_passthrough :
  forall (base : BaseClient) messages stop,
    _create_message_dicts messages stop
    = base_create_message_dicts messages stop.
Proof.
  intros. reflexivity.
Qed.

End EntryPoints.

(** ** The pass on any input *)

Section PatchMore.

Import DeepSeekChatOpenAI Shape Observe.

Lemma Forall2_same {A : Type} (R : A -> A -> Prop) (l : list A) :
  (forall x, R x x) -> Forall2 R l l.
Proof.
  intros H. induction l; constructor; auto.
Qed.

(** X5.  When the pass raises, it is for one of two reasons: the result
    is not shaped as the data model says and the error is [TypeError],
    or [json.loads] met a limit of the interpreter on one of the
    arguments the pass reached and the error is the [RecursionError]
    or [ValueError] it raised.  The [in] tests of line 34 guard every
    subscription, so no [KeyError] leaves the loop.  The pass of
    [_agenerate] raises the same. *)
Theorem pass_raise_causes :
  forall (py : Interpreter) res e,
    generate_patch res = Raise e ->
    (e = TypeError /\ wf_result res = false \/
     (e = RecursionError \/ e = ValueError) /\
     forallb limit_free (reached_arguments res) = false) /\
    agenerate_patch res = Raise e.
Proof.
  intros py res e H. split; [| exact H].
  apply generate_patch_raise in H.
  destruct H as [H | (text & Hin & Hl & Hne)]; [now left | right].
  now apply (reached_limit res text).
Qed.

Lemma pass_raise_causes_witness :
  (TypeError = TypeError /\ wf_result ill_shaped = false \/
   (TypeError = RecursionError \/ TypeError = ValueError) /\
   forallb (limit_free (py := cpython)) (reached_arguments ill_shaped)
   = false) /\
  agenerate_patch (py := cpython) ill_shaped = Raise TypeError.
Proof.
  exact (pass_raise_causes cpython ill_shaped TypeError eq_refl).
Defined.

(** X6.  In the layout the loops were written for and in any other, a
    pass that returns has decoded once each arguments string it
    reached and left the rest alone: the result is the functional
    reading of the one given, the arguments reached are the decodings
    of the ones given, in the same order, and the result is within the
    frame. *)
Theorem returned_pass_is_decoding :
  forall (py : Interpreter) res res',
    generate_patch res = Ok res' ->
    res' = patched_result res /\
    reached_arguments res' = map decoded (reached_arguments res) /\
    result_frame res res'.
Proof.
  intros py res res' H. apply generate_patch_ok in H. subst res'.
  split; [reflexivity |].
  split; [apply reached_arguments_patched | apply result_frame_patched].
Qed.

Lemma returned_pass_is_decoding_witness :
  Samples.mixed_patched = patched_result (py := cpython) Samples.mixed /\
  reached_arguments Samples.mixed_patched
  = map (decoded (py := cpython)) (reached_arguments Samples.mixed) /\
  result_frame (py := cpython) Samples.mixed Samples.mixed_patched.
Proof.
  apply (returned_pass_is_decoding cpython Samples.mixed Samples.mixed_patched).
  vm_compute. reflexivity.
Defined.

(** X7.  Behind a base client that answers with a [ChatResult], each
    entry point returns what its base call returned and raises what
    its base call raised: an error of the base call passes through,
    and the override raises nothing of its own. *)
Theorem entry_points_return_base_outcome :
  forall (py : Interpreter) (base : BaseClient) messages stop kwargs,
    _generate messages stop kwargs = base_generate messages stop kwargs /\
    _agenerate messages stop kwargs = base_agenerate messages stop kwargs.
Proof.
  intros. split;
    [apply generate_returns_base | apply agenerate_returns_base].
Qed.

Example entry_points_on_flaky_client :
  _generate (py := cpython) (base := flaky_client) [] None []
  = Ok Samples.chat_mixed /\
  _agenerate (py := cpython) (base := flaky_client) [] None []
  = Raise (Upstream "timeout").
Proof. vm_compute. split; reflexivity. Qed.

(** X9.  A tool call without a [function] entry, or whose function
    mapping has no [arguments] entry, goes through both loops as it is
    and raises nothing. *)
Theorem tool_call_without_arguments_kept :
  forall (py : Interpreter) tool_call,
    wf_tool_call tool_call = true ->
    arguments_of tool_call = None ->
    generate_tool_call tool_call = Ok tool_call /\
    agenerate_tool_call tool_call = Ok tool_call.
Proof.
  intros py tc Hwf Hnone.
  assert (H : generate_tool_call tc = Ok tc).
  { rewrite generate_tool_call_patched.
    - f_equal. apply patched_tool_call_id. intros args Ha.
      rewrite Hnone in Ha. discriminate.
    - exact Hwf.
    - intros args Ha. rewrite Hnone in Ha. discriminate. }
  split; exact H.
Qed.

Lemma tool_call_without_arguments_kept_witness :
  generate_tool_call (py := cpython) bare_call = Ok bare_call /\
  agenerate_tool_call (py := cpython) bare_call = Ok bare_call.
Proof.
  exact (tool_call_without_arguments_kept cpython bare_call eq_refl eq_refl).
Defined.

(** X10.  Arguments whose text opens with a brace (after white space)
    come out of the loop body as a mapping, or as the string they were
    when the text is malformed; never as a list, a number or another
    string.  The one other outcome is the error of a limit of the
    interpreter. *)
Theorem brace_arguments_become_mapping :
  forall (py : Interpreter) tool_call text rest,
    wf_tool_call tool_call = true ->
    arguments_of tool_call = Some (VStr text) ->
    Json.skip_ws text = String "{" rest ->
    (exists tool_call' d,
        Json.json_loads text = Ok (VDict d) /\
        generate_tool_call tool_call = Ok tool_call' /\
        arguments_of tool_call' = Some (VDict d)) \/
    (Json.json_loads text = Raise JSONDecodeError /\
     generate_tool_call tool_call = Ok tool_call) \/
    (exists e,
        (e = RecursionError \/ e = ValueError) /\
        Json.json_loads text = Raise e /\
        generate_tool_call tool_call = Raise e).
Proof.
  intros py tc text rest Hwf Ha Hbrace.
  destruct (Json.json_loads text) as [obj | e] eqn:E.
  - left. pose proof (json_loads_object _ _ _ Hbrace E) as Hd.
    destruct obj as [| | | | | | d]; try discriminate.
    exists (patched_tool_call tc), d. split; [reflexivity |].
    split.
    + apply generate_tool_call_patched; [exact Hwf |].
      intros args Hargs. rewrite Ha in Hargs. injection Hargs as <-.
      simpl. now rewrite E.
    + rewrite arguments_of_patched, Ha. simpl. now rewrite E.
  - right. destruct (json_loads_raises _ _ E) as [-> | He].
    + left. split; [reflexivity |].
      rewrite generate_tool_call_patched.
      * f_equal. apply patched_tool_call_id. intros args Hargs.
        rewrite Ha in Hargs. injection Hargs as <-. simpl. now rewrite E.
      * exact Hwf.
      * intros args Hargs. rewrite Ha in Hargs. injection Hargs as <-.
        simpl. now rewrite E.
    + right. exists e. split; [exact He |]. split; [reflexivity |].
      apply (generate_tool_call_limit tc text e Hwf Ha E).
      destruct He as [-> | ->]; discriminate.
Qed.

Lemma brace_arguments_become_mapping_witness :
  exists tool_call' d,
    Json.json_loads (py := cpython) (Json.q " {'x': [1, 2]}")
    = Ok (VDict d) /\
    generate_tool_call (py := cpython) brace_call = Ok tool_call' /\
    arguments_of tool_call' = Some (VDict d).
Proof.
  destruct (brace_arguments_become_mapping cpython brace_call
              (Json.q " {'x': [1, 2]}") (Json.q "'x': [1, 2]}")
              eq_refl eq_refl eq_refl)
    as [H | [[H _] | (e & _ & H & _)]];
    [exact H | vm_compute in H; discriminate H
    | vm_compute in H; discriminate H].
Defined.

(** X11.  Arguments that are empty or hold white space only do not
    decode: the tool call is returned with that same string, it does
    not become an empty mapping. *)
Theorem blank_arguments_kept :
  forall (py : Interpreter) tool_call text,
    wf_tool_call tool_call = true ->
    arguments_of tool_call = Some (VStr text) ->
    Json.skip_ws text = "" ->
    Json.json_loads text = Raise JSONDecodeError /\
    generate_tool_call tool_call = Ok tool_call.
Proof.
  intros py tc text Hwf Ha Hblank.
  pose proof (json_loads_blank text Hblank) as Hnone.
  split; [exact Hnone |].
  rewrite generate_tool_call_patched.
  - f_equal. apply patched_tool_call_id. intros args Hargs.
    rewrite Ha in Hargs. injection Hargs as <-. simpl. now rewrite Hnone.
  - exact Hwf.
  - intros args Hargs. rewrite Ha in Hargs. injection Hargs as <-.
    simpl. now rewrite Hnone.
Qed.

Lemma blank_arguments_kept_witness :
  Json.json_loads (py := cpython) "  " = Raise JSONDecodeError /\
  generate_tool_call (py := cpython) blank_call = Ok blank_call.
Proof.
  exact (blank_arguments_kept cpython blank_call "  "
           eq_refl eq_refl eq_refl).
Defined.

(** X15.  Line 39 catches [JSONDecodeError] only: whatever else
    [json.loads] raises on an arguments string leaves the loop body of
    both passes, and with it the pass. *)
Theorem limit_errors_escape :
  forall (py : Interpreter) tool_call text e,
    wf_tool_call tool_call = true ->
    arguments_of tool_call = Some (VStr text) ->
    Json.json_loads text = Raise e ->
    e <> JSONDecodeError ->
    generate_tool_call tool_call = Raise e /\
    agenerate_tool_call tool_call = Raise e.
Proof.
  intros py tc text e Hwf Ha Hl Hne.
  split; now apply (generate_tool_call_limit tc text e).
Qed.

Lemma limit_errors_escape_witness :
  generate_tool_call (py := cpython) long_int_call = Raise ValueError /\
  agenerate_tool_call (py := cpython) long_int_call = Raise ValueError.
Proof.
  apply (limit_errors_escape cpython long_int_call
           (Json.repeat_char "1" 4301) ValueError).
  - reflexivity.
  - reflexivity.
  - vm_compute. reflexivity.
  - discriminate.
Defined.

End PatchMore.

(** ** What the pass keeps *)

Section PatchKeeps.

Import DeepSeekChatOpenAI Shape Observe.

(** X12.  The pass reads back every other entry as it was: in
    [additional_kwargs] every key but [tool_calls] (the legacy
    [function_call] among them, whose arguments are not decoded), in a
    tool call every key but [function], in a function mapping every key
    but [arguments].  The one other outcome over a result shaped as
    the data model says is the error of a limit of the interpreter. *)
Theorem other_entries_kept :
  forall (py : Interpreter) res,
    wf_result res = true ->
    (exists res',
        generate_patch res = Ok res' /\
        Forall2
          (fun generation generation' =>
             Forall2
               (fun gen gen' =>
                  forall key,
                    key <> "tool_calls" ->
                    Dict.get (kwargs_of gen') key
                    = Dict.get (kwargs_of gen) key)
               (gens_of generation) (gens_of generation'))
          (generations res) (generations res') /\
        Forall2
          (fun tool_call tool_call' =>
             (forall key,
                 key <> "function" ->
                 entry tool_call' key = entry tool_call key) /\
             (forall key,
                 key <> "arguments" ->
                 function_entry tool_call' key
                 = function_entry tool_call key))
          (tool_calls_of res) (tool_calls_of res')) \/
    limit_raised res.
Proof.
  intros py res Hwf.
  destruct (generate_patch res) as [res' | e] eqn:H;
    [left | right; now apply (generate_patch_limit res e)].
  exists res'. split; [reflexivity |].
  apply generate_patch_ok in H. subst res'. split.
  - simpl. apply Forall2_map_right. intros [gens | chat]; simpl.
    + apply Forall2_map_right. intros gen key. apply kwargs_of_patched.
    + constructor; [reflexivity | constructor].
  - unfold tool_calls_of. simpl. apply Forall2_flat_map.
    apply Forall2_map_right. intros [gens | chat]; simpl.
    + rewrite (flat_map_map_commute patched_gen patched_tool_call)
        by apply tool_calls_of_gen_patched.
      apply Forall2_map_right. intros tc. split; intros key.
      * apply entry_patched.
      * apply function_entry_patched.
    + apply Forall2_same. intros tc. split; reflexivity.
Qed.

Lemma other_entries_kept_witness :
  exists res',
    generate_patch (py := cpython) legacy = Ok res' /\
    Forall2
      (fun generation generation' =>
         Forall2
           (fun gen gen' =>
              forall key,
                key <> "tool_calls" ->
                Dict.get (kwargs_of gen') key = Dict.get (kwargs_of gen) key)
           (gens_of generation) (gens_of generation'))
      (generations legacy) (generations res') /\
    Forall2
      (fun tool_call tool_call' =>
         (forall key,
             key <> "function" ->
             entry tool_call' key = entry tool_call key) /\
         (forall key,
             key <> "arguments" ->
             function_entry tool_call' key = function_entry tool_call key))
      (tool_calls_of legacy) (tool_calls_of res').
Proof.
  destruct (other_entries_kept cpython legacy eq_refl)
    as [H | (e & H & _)]; [exact H |].
  vm_compute in H. discriminate H.
Defined.

End PatchKeeps.
